(** * moonlite/utils/dashboard.py: cookie acquisition, app listing and
      package discovery on the Steamworks partner dashboard.

    The development embeds the three functions of the module,
    [get_cookies], [get_apps] and [get_packages], and states what each of
    them does on every input.

    Conventions of the embedding:
    - a Python [str] is a Rocq [string];
    - a Python [dict] is a stdpp [gmap] (insertion order is never
      observed by the module: the only dumps sort their keys);
    - a raised exception is the [Err] branch of [result];
    - library calls whose behaviour is fixed by the Python standard
      library ([urlparse], [unquote], [PurePosixPath.parts],
      [str.isnumeric], [int], [str.strip]) are the fields of the class
      [PyLib]; every statement holds for every instance, and a plain
      ASCII instance is used for the worked examples;
    - BeautifulSoup's search operations are defined on a concrete tree
      with their document-order semantics;
    - the thread pool of [get_packages] is a step relation: queued calls
      are started in submission order while a worker is free, and running
      calls complete in an arbitrary order. *)

From Stdlib Require Import ZArith List String Ascii Bool Lia Permutation.
From stdpp Require Import gmap strings list fin_maps relations.
Import ListNotations.

Local Open Scope string_scope.
Local Open Scope list_scope.
Local Open Scope Z_scope.

#[local] Set Warnings "-register-all".

(** ** Exceptions and results *)

Inductive exn : Type :=
  | AttributeError   (* attribute access on [None] *)
  | TypeError        (* subscript of [None] *)
  | KeyError         (* missing attribute of a tag *)
  | IndexError       (* [[-1]] of an empty list *)
  | ValueError       (* [int()] or [urlparse()] of a string it cannot read *)
  | RequestException (* [requests.get] failed *)
  | CookiesNotFound.

Inductive result (A : Type) : Type :=
  | Ok (a : A)
  | Err (e : exn).
Arguments Ok {A} a.
Arguments Err {A} e.

(** Sequencing: the first exception raised is the one that propagates.
    The instances give [x ← r; k] for [result]. *)
#[export] Instance result_bind : MBind result :=
  λ A B k r, match r with
             | Ok a => k a
             | Err e => Err e
             end.

#[export] Instance result_ret : MRet result := λ A a, Ok a.

(** [None] where an object was expected: the access raises [e]. *)
Definition expect {A : Type} (e : exn) (o : option A) : result A :=
  match o with
  | Some a => Ok a
  | None => Err e
  end.

(** Evaluation of a list comprehension whose element expression may raise:
    elements are computed left to right and the first exception aborts. *)
Fixpoint comprehension {A B : Type} (f : A → result B) (l : list A)
  : result (list B) :=
  match l with
  | [] => Ok []
  | a :: l' => b ← f a; bs ← comprehension f l'; Ok (b :: bs)
  end.

(** ** Library functions on strings *)

Class PyLib : Type := {
  (** [urlparse(href).path]; [None] when [urlparse] raises [ValueError] *)
  urlparse_path : string → option string;
  (** [urllib.parse.unquote] *)
  unquote : string → string;
  (** [PurePosixPath(p).parts] *)
  posix_parts : string → list string;
  (** [str.isnumeric] *)
  isnumeric : string → bool;
  (** [int(s)]; [None] is [ValueError] *)
  int : string → option Z;
  (** [str.strip()] *)
  strip : string → string
}.

(** ** Cookies and dashboards *)

Record Cookie : Type := {
  domain : string;
  name : string;
  value : string
}.

(** A member of the [Dashboards] enumeration carries the attributes set
    by [__init__]; [portal_domain] is [urlparse(portal_url).netloc]. *)
Record Dashboards : Type := {
  portal_url : string;
  portal_domain : string;
  cookies_required_prefixes : gset string
}.

Definition STEAMGAMES : Dashboards := {|
  portal_url := "https://partner.steamgames.com/dashboard";
  portal_domain := "partner.steamgames.com";
  cookies_required_prefixes :=
    {[ "sessionid"; "steamLoginSecure"; "steamMachineAuth" ]}
|}.

Definition STEAMPOWERED : Dashboards := {|
  portal_url := "https://partner.steampowered.com/nav_games.php";
  portal_domain := "partner.steampowered.com";
  cookies_required_prefixes := {[ "steamLoginSecure"; "steamMachineAuth" ]}
|}.

(** ** [get_cookies] *)

(** The objects that the module tests for membership in the [cookies]
    dictionary.  The keys of [cookies] are strings; a
    [http.cookiejar.Cookie] defines neither [__eq__] nor [__hash__], so it
    compares by identity and is never equal to a string key. *)
Inductive pyobj : Type :=
  | PyStr (s : string)
  | PyCookie (c : Cookie).

(** [o in cookies] *)
Definition dict_contains (cookies : gmap string string) (o : pyobj) : bool :=
  match o with
  | PyStr s => bool_decide (is_Some (cookies !! s))
  | PyCookie _ => false
  end.

(** The condition of the [if] at lines 70-72. *)
Definition cookie_selected (dashboard : Dashboards)
    (cookies : gmap string string) (cookie : Cookie) : bool :=
  String.eqb (domain cookie) (portal_domain dashboard)
  && (String.prefix "steam" (name cookie)
      || String.eqb (name cookie) "sessionid")
  && negb (dict_contains cookies (PyCookie cookie)).

(** One iteration of [for cookie in cj]. *)
Definition collect_step (dashboard : Dashboards)
    (cookies : gmap string string) (cookie : Cookie) : gmap string string :=
  if cookie_selected dashboard cookies cookie
  then <[name cookie := value cookie]> cookies
  else cookies.

(** The [for] loop of lines 66-73, started from the empty dictionary. *)
Definition collect_cookies (dashboard : Dashboards) (cj : list Cookie)
  : gmap string string :=
  foldl (collect_step dashboard) ∅ cj.

(** Iterating a dictionary yields its keys. *)
Definition dict_keys (cookies : gmap string string) : list string :=
  elements (dom cookies).

(** The [all(any(...))] test of line 76. *)
Definition has_required (dashboard : Dashboards)
    (cookies : gmap string string) : bool :=
  forallb
    (λ check, existsb (λ cookie, String.prefix check cookie) (dict_keys cookies))
    (elements (cookies_required_prefixes dashboard)).

(** What the function does to the outside: loads of the browser's cookie
    jar and lines printed. *)
Inductive event : Type :=
  | EvLoad
  | EvPrint (line : string)
  | EvPrintCookies (cookies : gmap string string).

(** The browser: the jar returned by each successive call of the
    [browser_cookie3] loader, numbered from 0.  The user may refresh the
    session between two loads, so the jars need not be equal. *)
Definition browser : Type := nat → list Cookie.

Record world : Type := {
  loads : nat;
  trace : list event
}.

Definition start : world := {| loads := 0; trace := [] |}.

Definition load_jar (b : browser) (w : world) : list Cookie * world :=
  (b (loads w), {| loads := S (loads w); trace := trace w ++ [EvLoad] |}).

Definition print (e : event) (w : world) : world :=
  {| loads := loads w; trace := trace w ++ [e] |}.

Definition retry_message : string :=
  "ERROR: Could not find all cookies required. Try refreshing partner.steamgames.com. Trying again...".

(** The [while tries:] loop.  It returns the values of [tries] and
    [cookies] when the loop is left. *)
Fixpoint retry_loop (b : browser) (dashboard : Dashboards) (tries : nat)
    (cookies : gmap string string) (w : world)
  : nat * gmap string string * world :=
  match tries with
  | O => (O, cookies, w)
  | S tries' =>
      let '(cj, w) := load_jar b w in
      let cookies := collect_cookies dashboard cj in
      if has_required dashboard cookies
      then (tries, cookies, w)
      else retry_loop b dashboard tries' cookies (print (EvPrint retry_message) w)
  end.

Definition get_cookies (b : browser) (dashboard : Dashboards) (w : world)
  : result (gmap string string) * world :=
  let '(tries, cookies, w) := retry_loop b dashboard 3 ∅ w in
  if Nat.eqb tries 0
  then (Err CookiesNotFound, w)
  else
    let w := print (EvPrint "Found the following cookies from partner.steamgames.com:") w in
    let w := print (EvPrintCookies cookies) w in
    (Ok cookies, w).

(** ** The parsed page *)

(** A node of the tree built by [BeautifulSoup(..., 'html.parser')]: a tag
    with its name, the value of its [class] attribute (split into tokens,
    empty when the attribute is absent), its [href] attribute and its
    contents, or a string.  No other attribute is read by the module. *)
Inductive node : Type :=
  | Tag (tag : string) (class_ : list string) (href : option string)
        (contents : list node)
  | NavigableString (text : string).

(** The parsed document: the contents of the [BeautifulSoup] object. *)
Definition soup : Type := list node.

Definition contents_of (n : node) : list node :=
  match n with
  | Tag _ _ _ cs => cs
  | NavigableString _ => []
  end.

Definition href_of (n : node) : option string :=
  match n with
  | Tag _ _ h _ => h
  | NavigableString _ => None
  end.

(** The node and everything below it, in document order. *)
Fixpoint preorder (n : node) : list node :=
  n :: match n with
       | Tag _ _ _ cs => flat_map preorder cs
       | NavigableString _ => []
       end.

(** [tag.descendants] *)
Definition descendants (n : node) : list node :=
  flat_map preorder (contents_of n).

(** [tag.string]: the single string below a chain of only children. *)
Fixpoint string_of (n : node) : option string :=
  match n with
  | NavigableString s => Some s
  | Tag _ _ _ [c] => string_of c
  | Tag _ _ _ _ => None
  end.

(** [tag.get_text()]: all strings below the tag, concatenated. *)
Fixpoint get_text (n : node) : string :=
  match n with
  | NavigableString s => s
  | Tag _ _ _ cs => String.concat "" (map get_text cs)
  end.

(** A search by tag name. *)
Definition is_tag (t : string) (n : node) : bool :=
  match n with
  | Tag t' _ _ _ => String.eqb t' t
  | NavigableString _ => false
  end.

(** A search by [{'class': c}]: one of the tokens of the attribute is [c],
    or the whole attribute value is [c]. *)
Definition has_class (c : string) (n : node) : bool :=
  match n with
  | Tag _ cls _ _ =>
      existsb (λ token, String.eqb token c) cls
      || String.eqb (String.concat " " cls) c
  | NavigableString _ => false
  end.

(** A search by [text=s]: the tag's [.string] is [s]. *)
Definition has_string (s : string) (n : node) : bool :=
  match string_of n with
  | Some s' => String.eqb s' s
  | None => false
  end.

(** A search by [attrs={'href': True}]. *)
Definition has_href (n : node) : bool :=
  match href_of n with
  | Some _ => true
  | None => false
  end.

(** [tag.find(...)]: the first descendant that matches. *)
Definition find (P : node → bool) (n : node) : option node :=
  List.find P (descendants n).

(** [tag.find_all(...)]: the descendants that match, in document order. *)
Definition find_all (P : node → bool) (n : node) : list node :=
  List.filter P (descendants n).

(** [tag.find_next(...)]: the first match among [tag.next_elements], that
    is among the descendants of the tag followed by everything that comes
    after the tag in the document.  [following] is the part of the
    document after the end of the tag, as a forest. *)
Definition find_next (P : node → bool) (n : node) (following : list node)
  : option node :=
  List.find P (flat_map preorder (contents_of n ++ following)).

(** A node with its place in the document. *)
Record position : Type := {
  self : node;
  parent_contents : list node;  (* contents of [self.parent] *)
  next_siblings : list node;    (* [self.next_siblings] *)
  after_parent : list node      (* the document after the end of the parent *)
}.

(** All positions at and below [n], in document order. *)
Fixpoint positions (n : node) (parent sibs after : list node)
  : list position :=
  {| self := n; parent_contents := parent;
     next_siblings := sibs; after_parent := after |}
  :: match n with
     | Tag _ _ _ cs =>
         (fix below (l : list node) : list position :=
            match l with
            | [] => []
            | c :: rest => positions c cs rest (sibs ++ after) ++ below rest
            end) cs
     | NavigableString _ => []
     end.

Fixpoint soup_positions_from (page rest : list node) : list position :=
  match rest with
  | [] => []
  | n :: rest' => positions n page rest' [] ++ soup_positions_from page rest'
  end.

(** [soup.find(...)], keeping the place of the node that was found. *)
Definition soup_find (P : node → bool) (page : soup) : option position :=
  List.find (λ p, P (self p)) (soup_positions_from page page).

(** [tag.find_next_siblings(...)]: the later siblings that match, each with
    the part of the document that follows it. *)
Fixpoint find_next_siblings (P : node → bool) (sibs after : list node)
  : list (node * list node) :=
  match sibs with
  | [] => []
  | s :: rest =>
      (if P s then [(s, rest ++ after)] else [])
      ++ find_next_siblings P rest after
  end.

(** ** [get_apps] *)

(** The dictionary built for one app: keys ['appid'], ['name'], ['type']. *)
Record app : Type := {
  appid : Z;
  app_name : string;
  app_type : string
}.

(** The web as the scraper sees it: what [requests.get(url, cookies)]
    followed by the parse yields for the two kinds of URL requested. *)
Record web : Type := {
  apps_page : gmap string string → result soup;
      (* https://partner.steamgames.com/apps/ *)
  associated_page : Z → gmap string string → result soup
      (* https://partner.steamgames.com/apps/associated/{appid} *)
}.

Section Scraper.
Context `{PyLib}.

(** The parts of the decoded path that pass [isnumeric], in path order. *)
Definition numeric_parts (path : string) : list string :=
  List.filter isnumeric (posix_parts (unquote path)).

(** [[int(part) for part in PurePosixPath(unquote(urlparse(href).path)).parts
      if part.isnumeric()][-1]] *)
Definition last_numeric_part (href : string) : result Z :=
  path ← expect ValueError (urlparse_path href);
  ids ← comprehension (λ part, expect ValueError (int part))
                      (numeric_parts path);
  expect IndexError (last ids).

Definition div_class (c : string) (n : node) : bool :=
  is_tag "div" n && has_class c n.

(** The store-pages filter of lines 106-109: [Ok true] when the row is
    skipped by [continue]. *)
Definition skipped (store_pages_only : bool) (app_row : node)
    (following : list node) : result bool :=
  if store_pages_only then
    links_div ← expect AttributeError
      (find_next (div_class "recent_app_links") app_row following);
    Ok (Nat.ltb (length (find_all (is_tag "a") links_div)) 2)
  else Ok false.

(** Lines 111-123: the dictionary of a row that is not skipped. *)
Definition app_of_row (app_row : node) (following : list node)
  : result app :=
  name_div ← expect AttributeError
    (find_next (div_class "recent_app_name") app_row following);
  let name_a := find (is_tag "a") name_div in
  let type_div := find_next (div_class "recent_app_type") app_row following in
  name_a ← expect TypeError name_a;
  href ← expect KeyError (href_of name_a);
  id ← last_numeric_part href;
  type_div ← expect AttributeError type_div;
  Ok {| appid := id;
        app_name := strip (get_text name_a);
        app_type := strip (get_text type_div) |}.

(** The [for app_row in app_rows] loop; [apps] is the list built so
    far. *)
Fixpoint for_app_rows (store_pages_only : bool)
    (app_rows : list (node * list node)) (apps : list app)
  : result (list app) :=
  match app_rows with
  | [] => Ok apps
  | (app_row, following) :: rest =>
      skip ← skipped store_pages_only app_row following;
      if (skip : bool) then for_app_rows store_pages_only rest apps
      else
        app ← app_of_row app_row following;
        for_app_rows store_pages_only rest (apps ++ [app])
  end.

(** The search of line 100. *)
Definition apps_heading (n : node) : bool :=
  is_tag "h2" n && has_string "View and search all apps:" n.

(** Line 101: the rows that follow the heading, each with the part of
    the document after it. *)
Definition app_rows_after (header2 : position) : list (node * list node) :=
  find_next_siblings (div_class "recent_app_row")
                     (next_siblings header2) (after_parent header2).

Definition get_apps (w : web) (cookies : gmap string string)
    (store_pages_only : bool) : result (list app) :=
  page ← apps_page w cookies;
  header2 ← expect AttributeError (soup_find apps_heading page);
  for_app_rows store_pages_only (app_rows_after header2) [].

End Scraper.

(** ** [get_packages] *)

Section Packages.
Context `{PyLib}.

Definition packages_heading (n : node) : bool :=
  is_tag "div" n && has_string "Store packages" n.

(** The rows searched at lines 152-158: the [tr released] elements
    below the parent of the heading. *)
Definition released_rows (header : position) : list node :=
  List.filter (div_class "tr released")
              (flat_map preorder (parent_contents header)).

(** The element expression of the comprehension, lines 150-152. *)
Definition packageid_of_row (row : node) : result Z :=
  a ← expect TypeError (find (λ n, is_tag "a" n && has_href n) row);
  href ← expect KeyError (href_of a);
  last_numeric_part href.

(** Lines 148-159 of [app_thread]: the page of one app is fetched and the
    list [packageids] is computed.  Nothing shared is touched. *)
Definition packageids_of (w : web) (cookies : gmap string string)
    (appid : Z) : result (list Z) :=
  page ← associated_page w appid cookies;
  header ← expect AttributeError (soup_find packages_heading page);
  comprehension packageid_of_row (released_rows header).

(** Lines 161-163: the loop run while [package_lock] is held. *)
Definition store_packages (appid : Z) (packageids : list Z)
    (packages : gmap Z Z) : gmap Z Z :=
  foldl (λ packages packageid, <[packageid := appid]> packages)
        packages packageids.

(** One call of [app_thread]: its outcome and its effect on the shared
    dictionary.  An exception is raised before the lock is taken, so a
    call that raises leaves [packages] as it was. *)
Definition app_thread (w : web) (cookies : gmap string string)
    (appid : Z) (packages : gmap Z Z) : result unit * gmap Z Z :=
  match packageids_of w cookies appid with
  | Ok packageids => (Ok tt, store_packages appid packageids packages)
  | Err e => (Err e, packages)
  end.

(** The state of the [ThreadPoolExecutor] and of the shared dictionary.
    [pool.map] submits one call per app id at once; the calls wait in
    [queue] in submission order and at most [max_workers] of them are
    [running].  The outcome of a finished call, exception included, is
    kept in its future. *)
Record pool : Type := {
  queue : list Z;
  running : list Z;
  futures : list (Z * result unit);
  packages : gmap Z Z
}.

(** A step of the pool.  [pool_start]: an idle worker takes the next
    call of the queue.  [pool_finish]: any running call completes; the
    lock makes its writes to [packages] a single step. *)
Inductive pool_step (w : web) (cookies : gmap string string)
    (max_workers : nat) : pool → pool → Prop :=
  | pool_start appid q r fs ps :
      (length r < max_workers)%nat →
      pool_step w cookies max_workers
        {| queue := appid :: q; running := r; futures := fs; packages := ps |}
        {| queue := q; running := r ++ [appid]; futures := fs; packages := ps |}
  | pool_finish appid q r1 r2 fs ps :
      pool_step w cookies max_workers
        {| queue := q; running := r1 ++ appid :: r2; futures := fs;
           packages := ps |}
        {| queue := q; running := r1 ++ r2;
           futures := fs ++ [(appid, (app_thread w cookies appid ps).1)];
           packages := (app_thread w cookies appid ps).2 |}.

(** Leaving the [with] block waits until every submitted call has
    finished.  The iterator returned by [pool.map] is dropped, so no
    future is ever asked for its result. *)
Definition pool_run (w : web) (cookies : gmap string string)
    (max_workers : nat) (app_ids : list Z)
    (fs : list (Z * result unit)) (ps : gmap Z Z) : Prop :=
  rtc (pool_step w cookies max_workers)
    {| queue := app_ids; running := []; futures := []; packages := ∅ |}
    {| queue := []; running := []; futures := fs; packages := ps |}.

(** Lines 139-142. *)
Definition apps_for (w : web) (cookies : gmap string string)
    (store_pages_only : bool) (get_app_results : option (list app))
  : result (list app) :=
  match get_app_results with
  | Some apps => Ok apps
  | None => get_apps w cookies store_pages_only
  end.

(** [get_packages] as a relation between its arguments and what a call
    may give, for a pool of [max_workers] threads. *)
Inductive get_packages_with (max_workers : nat) (w : web)
    (cookies : gmap string string) (store_pages_only : bool)
    (get_app_results : option (list app)) : result (gmap Z Z) → Prop :=
  | get_packages_no_apps e :
      apps_for w cookies store_pages_only get_app_results = Err e →
      get_packages_with max_workers w cookies store_pages_only
                        get_app_results (Err e)
  | get_packages_return apps fs ps :
      apps_for w cookies store_pages_only get_app_results = Ok apps →
      pool_run w cookies max_workers (map appid apps) fs ps →
      get_packages_with max_workers w cookies store_pages_only
                        get_app_results (Ok ps).

(** The module creates the pool with [max_workers=20]. *)
Definition get_packages := get_packages_with 20.

(** The calls run one after the other in submission order: the run of a
    pool with a single worker. *)
Definition run_in_order (w : web) (cookies : gmap string string)
    (app_ids : list Z) : gmap Z Z :=
  foldl (λ ps appid, (app_thread w cookies appid ps).2) ∅ app_ids.

End Packages.

(** ** The library functions on plain ASCII text

    An instance of [PyLib] for URLs and texts made of ASCII characters,
    where the library functions have a short definition.  It is used to run
    the functions above on concrete pages. *)

Module Plain.

Definition is_digit (c : ascii) : bool :=
  (48 <=? nat_of_ascii c)%nat && (nat_of_ascii c <=? 57)%nat.

Definition is_alpha (c : ascii) : bool :=
  let n := nat_of_ascii c in
  ((65 <=? n)%nat && (n <=? 90)%nat) || ((97 <=? n)%nat && (n <=? 122)%nat).

(** The ASCII characters for which [str.isspace] holds. *)
Definition is_space (c : ascii) : bool :=
  let n := nat_of_ascii c in
  ((9 <=? n)%nat && (n <=? 13)%nat) || ((28 <=? n)%nat && (n <=? 32)%nat).

Definition isnumeric (s : string) : bool :=
  match list_ascii_of_string s with
  | [] => false
  | cs => forallb is_digit cs
  end.

Definition digit_value (c : ascii) : Z := Z.of_nat (nat_of_ascii c) - 48.

Definition int (s : string) : option Z :=
  if isnumeric s
  then Some (fold_left (λ n c, 10 * n + digit_value c)
                       (list_ascii_of_string s) 0)
  else None.

Fixpoint lstrip (cs : list ascii) : list ascii :=
  match cs with
  | c :: cs' => if is_space c then lstrip cs' else cs
  | [] => []
  end.

Definition strip (s : string) : string :=
  string_of_list_ascii
    (rev (lstrip (rev (lstrip (list_ascii_of_string s))))).

Definition hex_value (c : ascii) : option nat :=
  let n := nat_of_ascii c in
  if is_digit c then Some (n - 48)%nat
  else if (65 <=? n)%nat && (n <=? 70)%nat then Some (n - 55)%nat
  else if (97 <=? n)%nat && (n <=? 102)%nat then Some (n - 87)%nat
  else None.

(** [%XX] becomes the character of code [XX]; other text is kept. *)
Fixpoint unquote_chars (cs : list ascii) : list ascii :=
  match cs with
  | "%"%char :: ((h :: l :: cs'') as cs') =>
      match hex_value h, hex_value l with
      | Some a, Some b => ascii_of_nat (16 * a + b) :: unquote_chars cs''
      | _, _ => "%"%char :: unquote_chars cs'
      end
  | c :: cs' => c :: unquote_chars cs'
  | [] => []
  end.

Definition unquote (s : string) : string :=
  string_of_list_ascii (unquote_chars (list_ascii_of_string s)).

(** The text before the first character that satisfies [stop]. *)
Fixpoint until (stop : ascii → bool) (cs : list ascii) : list ascii :=
  match cs with
  | c :: cs' => if stop c then [] else c :: until stop cs'
  | [] => []
  end.

Fixpoint from (stop : ascii → bool) (cs : list ascii) : list ascii :=
  match cs with
  | c :: cs' => if stop c then cs else from stop cs'
  | [] => []
  end.

Definition is_char (a c : ascii) : bool := Ascii.eqb a c.

Definition drop_scheme (cs : list ascii) : list ascii :=
  let scheme := until (is_char ":") cs in
  match scheme, from (is_char ":") cs with
  | c :: _, _ :: rest =>
      if is_alpha c
         && forallb (λ x, is_alpha x || is_digit x || is_char "+" x
                          || is_char "-" x || is_char "." x) scheme
      then rest else cs
  | _, _ => cs
  end.

(** The network location after [//], and what follows it. *)
Definition split_netloc (cs : list ascii) : list ascii * list ascii :=
  match cs with
  | "/"%char :: "/"%char :: rest =>
      (until (is_char "/") rest, from (is_char "/") rest)
  | _ => ([], cs)
  end.

(** The parameters that follow the first [;] of the last segment are not
    part of the path. *)
Fixpoint drop_params (cs : list ascii) : list ascii :=
  match cs with
  | [] => []
  | c :: cs' =>
      if existsb (is_char "/") cs' then c :: drop_params cs'
      else if is_char "/" c then c :: until (is_char ";") cs'
      else until (is_char ";") cs
  end.

(** The path component: the URL without fragment, query, scheme, network
    location and parameters.  [urlparse] raises [ValueError] when only one
    of the two brackets occurs in the network location. *)
Definition urlparse_path (href : string) : option string :=
  let cs := list_ascii_of_string href in
  let cs := until (is_char "#") cs in
  let cs := until (is_char "?") cs in
  let '(netloc, path) := split_netloc (drop_scheme cs) in
  if xorb (existsb (is_char "[") netloc) (existsb (is_char "]") netloc)
  then None
  else Some (string_of_list_ascii (drop_params path)).

Fixpoint split_slash (cur : list ascii) (cs : list ascii)
  : list (list ascii) :=
  match cs with
  | [] => [rev cur]
  | c :: cs' =>
      if is_char "/" c then rev cur :: split_slash [] cs'
      else split_slash (c :: cur) cs'
  end.

Definition is_component (cs : list ascii) : bool :=
  match cs with
  | [] => false
  | ["."%char] => false
  | _ => true
  end.

(** The root, when the path is absolute, then the components that are
    neither empty nor a single dot. *)
Definition posix_parts (p : string) : list string :=
  let cs := list_ascii_of_string p in
  let root :=
    match cs with
    | "/"%char :: "/"%char :: "/"%char :: _ => ["/"]
    | "/"%char :: "/"%char :: _ => ["//"]
    | "/"%char :: _ => ["/"]
    | _ => []
    end in
  root ++ map string_of_list_ascii
              (List.filter is_component (split_slash [] cs)).

End Plain.

#[export] Instance plain_lib : PyLib := {|
  urlparse_path := Plain.urlparse_path;
  unquote := Plain.unquote;
  posix_parts := Plain.posix_parts;
  isnumeric := Plain.isnumeric;
  int := Plain.int;
  strip := Plain.strip
|}.

(** ** Notions used in the statements *)

(** The part of the selection that depends on the cookie alone: its domain
    is the portal's and its name starts with [steam] or is [sessionid]. *)
Definition eligible (dashboard : Dashboards) (cookie : Cookie) : bool :=
  String.eqb (domain cookie) (portal_domain dashboard)
  && (String.prefix "steam" (name cookie)
      || String.eqb (name cookie) "sessionid").

(** The eligible cookies of the jar that are called [n], in jar order. *)
Definition named (dashboard : Dashboards) (n : string) (cj : list Cookie)
  : list Cookie :=
  List.filter (λ cookie, eligible dashboard cookie && String.eqb (name cookie) n)
              cj.

(** The test of line 76 on the jar of load number [k]. *)
Definition attempt_ok (b : browser) (dashboard : Dashboards) (k : nat) : bool :=
  has_required dashboard (collect_cookies dashboard (b k)).

(** What [k] failed attempts leave in the trace. *)
Fixpoint failed_attempts (k : nat) : list event :=
  match k with
  | O => []
  | S k' => EvLoad :: EvPrint retry_message :: failed_attempts k'
  end.

Section ListingNotions.
Context `{PyLib}.

(** The row's own links element: the first one below the row. *)
Definition own_links (app_row : node) : option node :=
  find (div_class "recent_app_links") app_row.

(** The row's links element holds at least two hyperlinks. *)
Definition has_store_page (app_row : node) : bool :=
  match own_links app_row with
  | Some links_div =>
      negb (Nat.ltb (length (find_all (is_tag "a") links_div)) 2)
  | None => false
  end.

(** No node inside the row, and no node of the document after the row,
    satisfies [P]. *)
Definition nowhere (P : node → bool) (app_row : node)
    (following : list node) : Prop :=
  ∀ n, n ∈ descendants app_row ++ flat_map preorder following → P n = false.

(** An element that the scraper reads for a row it does not skip is
    neither in the row nor anywhere after it in the document: the links
    element (read only under [store_pages_only]), the name element, or
    the type element; or the name element that is read has no hyperlink,
    or its hyperlink has no target. *)
Definition element_unavailable (store_pages_only : bool) (app_row : node)
    (following : list node) : Prop :=
  (store_pages_only = true
   ∧ nowhere (div_class "recent_app_links") app_row following)
  ∨ (skipped store_pages_only app_row following = Ok false
     ∧ (nowhere (div_class "recent_app_name") app_row following
        ∨ (∃ name_div,
             find_next (div_class "recent_app_name") app_row following
             = Some name_div
             ∧ ((∀ n, n ∈ descendants name_div → is_tag "a" n = false)
                ∨ ∃ name_a, find (is_tag "a") name_div = Some name_a
                            ∧ href_of name_a = None))
        ∨ nowhere (div_class "recent_app_type") app_row following)).

End ListingNotions.

Section PoolNotions.
Context `{PyLib}.

(** The package ids that the call of [app_thread] for [appid] writes:
    the list it computed, or nothing when the computation raised. *)
Definition written (w : web) (cookies : gmap string string) (appid : Z)
  : list Z :=
  match packageids_of w cookies appid with
  | Ok packageids => packageids
  | Err _ => []
  end.

(** The outcome kept in the future of the call for [appid]. *)
Definition outcome (w : web) (cookies : gmap string string) (appid : Z)
  : Z * result unit :=
  (appid, (app_thread w cookies appid ∅).1).

(** No package id is found on the pages of two different apps of the
    list. *)
Definition no_shared_package (w : web) (cookies : gmap string string)
    (app_ids : list Z) : Prop :=
  ∀ a a' k, a ∈ app_ids → a' ∈ app_ids →
    k ∈ written w cookies a → k ∈ written w cookies a' → a = a'.

(** The effect of one completed call on the shared dictionary. *)
Definition commit (w : web) (cookies : gmap string string)
    (ps : gmap Z Z) (appid : Z) : gmap Z Z :=
  (app_thread w cookies appid ps).2.

(** The apps of [order] on whose page package [k] was found. *)
Definition writers (w : web) (cookies : gmap string string) (k : Z)
    (order : list Z) : list Z :=
  List.filter (λ appid, bool_decide (k ∈ written w cookies appid)) order.

(** The state of the pool when [pool.map] has submitted the calls. *)
Definition submitted (app_ids : list Z) : pool :=
  {| queue := app_ids; running := []; futures := []; packages := ∅ |}.

End PoolNotions.

(** ** The script

    The [__main__] block: the cookies of the Steamworks dashboard are read
    from the browser that [ask_browser()] names, the apps are listed, and
    the packages are collected for the apps just listed.  The elapsed time
    that the block prints is left out. *)

(** [Dashboards.cookies]: the wrapper of [get_cookies] for a member. *)
Definition Dashboards_cookies (self : Dashboards) (b : browser) (w : world)
  : result (gmap string string) * world :=
  get_cookies b self w.

(** What the script printed when it ran to its end. *)
Record report : Type := {
  report_cookies : gmap string string;
  report_apps : list app;
  report_packages : gmap Z Z
}.

Section Script.
Context `{PyLib}.

Inductive main (b : browser) (w : web) : result report → Prop :=
  | main_cookies_raise e wd :
      Dashboards_cookies STEAMGAMES b start = (Err e, wd) →
      main b w (Err e)
  | main_apps_raise cookies wd e :
      Dashboards_cookies STEAMGAMES b start = (Ok cookies, wd) →
      get_apps w cookies true = Err e →
      main b w (Err e)
  | main_packages_raise cookies wd apps e :
      Dashboards_cookies STEAMGAMES b start = (Ok cookies, wd) →
      get_apps w cookies true = Ok apps →
      get_packages w cookies true (Some apps) (Err e) →
      main b w (Err e)
  | main_done cookies wd apps ps :
      Dashboards_cookies STEAMGAMES b start = (Ok cookies, wd) →
      get_apps w cookies true = Ok apps →
      get_packages w cookies true (Some apps) (Ok ps) →
      main b w (Ok {| report_cookies := cookies; report_apps := apps;
                      report_packages := ps |}).

(** A row that holds everything the scraper reads from it: a links
    element, a name element with a hyperlink whose target has a path with
    numeric parts that [int] reads, and a type element. *)
Definition complete_row (app_row : node) : Prop :=
  is_Some (own_links app_row)
  ∧ is_Some (find (div_class "recent_app_type") app_row)
  ∧ ∃ name_div name_a href path,
      find (div_class "recent_app_name") app_row = Some name_div
      ∧ find (is_tag "a") name_div = Some name_a
      ∧ href_of name_a = Some href
      ∧ urlparse_path href = Some path
      ∧ numeric_parts path ≠ []
      ∧ Forall (λ p, is_Some (int p)) (numeric_parts path).

End Script.

(** ** A library in which [isnumeric] accepts more than [int] reads

    [str.isnumeric] holds for the superscript two, which [int] rejects.
    The instance adds this one string to the plain one. *)

Module Superscript.

(** The UTF-8 bytes of the superscript two. *)
Definition two : string :=
  String (ascii_of_nat 194) (String (ascii_of_nat 178) EmptyString).

Definition isnumeric (s : string) : bool :=
  Plain.isnumeric s || String.eqb s two.

End Superscript.

Definition superscript_lib : PyLib := {|
  urlparse_path := Plain.urlparse_path;
  unquote := Plain.unquote;
  posix_parts := Plain.posix_parts;
  isnumeric := Superscript.isnumeric;
  int := Plain.int;
  strip := Plain.strip
|}.

(** * Worked inputs *)

Module Inputs.

Definition cookie_a : Cookie :=
  {| domain := "partner.steamgames.com"; name := "sessionid"; value := "a" |}.

(** A second [sessionid] cookie of the same domain (another path). *)
Definition cookie_a' : Cookie :=
  {| domain := "partner.steamgames.com"; name := "sessionid"; value := "z" |}.

Definition cookie_b : Cookie :=
  {| domain := "partner.steamgames.com"; name := "steamLoginSecure";
     value := "b" |}.

Definition cookie_c : Cookie :=
  {| domain := "partner.steamgames.com"; name := "steamMachineAuth7656";
     value := "c" |}.

Definition cookie_other : Cookie :=
  {| domain := "store.steampowered.com"; name := "steamLoginSecure";
     value := "x" |}.

(** A target that requires a session and a login cookie only. *)
Definition two_prefixes : Dashboards := {|
  portal_url := "https://partner.steamgames.com/dashboard";
  portal_domain := "partner.steamgames.com";
  cookies_required_prefixes := {[ "sessionid"; "steamLoginSecure" ]}
|}.

(** A browser whose session is never refreshed: the jar lacks the
    machine-auth cookie at every load. *)
Definition stale : browser := λ _, [cookie_a; cookie_b; cookie_other].

(** A browser whose session is refreshed after the first load. *)
Definition refreshed : browser :=
  λ k, match k with
       | O => [cookie_a; cookie_other]
       | _ => [cookie_a; cookie_b; cookie_c]
       end.

(** A row of the apps page with [links] hyperlinks in its links
    element. *)
Definition app_row (links : nat) (target title kind : string) : node :=
  Tag "div" ["recent_app_row"] None
    [ Tag "div" ["recent_app_name"] None
        [ Tag "a" [] (Some target) [NavigableString title] ];
      Tag "div" ["recent_app_type"] None [NavigableString kind];
      Tag "div" ["recent_app_links"] None
        (repeat (Tag "a" [] (Some "#") [NavigableString "link"]) links) ].

Definition row_A : node :=
  app_row 2 "https://partner.steamgames.com/apps/landing/10" " Game A " "Game".

Definition row_B : node :=
  app_row 1 "https://partner.steamgames.com/apps/landing/20" "Game B" "Demo".

(** A row whose link target has no numeric part. *)
Definition row_C : node :=
  app_row 2 "https://partner.steamgames.com/apps/landing/new" "Game C" "Game".

(** A row without a name element. *)
Definition row_D : node :=
  Tag "div" ["recent_app_row"] None
    [ Tag "div" ["recent_app_type"] None [NavigableString "Game"] ].

Definition apps_document (rows : list node) : soup :=
  [ Tag "html" [] None
      [ Tag "body" [] None
          [ Tag "div" ["landing"] None
              (Tag "h2" [] None [NavigableString "View and search all apps:"]
               :: rows) ] ] ].

(** A page of associated packages: one released row per link target. *)
Definition packages_document (targets : list string) : soup :=
  [ Tag "div" ["packages"] None
      (Tag "div" ["title"] None [NavigableString "Store packages"]
       :: map (λ target,
                 Tag "div" ["tr"; "released"] None
                   [ Tag "a" [] (Some target) [NavigableString "package"] ])
              targets) ].

(** Apps 10 and 20 with packages 100, 101 and 200. *)
Definition site : web := {|
  apps_page := λ _, Ok (apps_document [row_A; row_B]);
  associated_page := λ appid _,
    if Z.eqb appid 10 then
      Ok (packages_document ["/store/packagelanding/100";
                             "/store/packagelanding/101"])
    else if Z.eqb appid 20 then
      Ok (packages_document ["/store/packagelanding/200"])
    else Err RequestException
|}.

(** Apps 1 and 2 are both sold in package 100. *)
Definition shared_package : web := {|
  apps_page := λ _, Err RequestException;
  associated_page := λ _ _, Ok (packages_document ["/store/packagelanding/100"])
|}.

(** The request for the page of app 10 fails. *)
Definition unreachable_10 : web := {|
  apps_page := λ _, Err RequestException;
  associated_page := λ appid _,
    if Z.eqb appid 10 then Err RequestException
    else Ok (packages_document ["/store/packagelanding/200"])
|}.

(** An apps page without the heading, one with a row that lacks its name
    element, and one with a row whose link has no numeric part. *)
Definition no_heading : web := {|
  apps_page := λ _, Ok [Tag "html" [] None [Tag "body" [] None []]];
  associated_page := λ _ _, Err RequestException
|}.

Definition broken_row : web := {|
  apps_page := λ _, Ok (apps_document [row_A; row_D]);
  associated_page := λ _ _, Err RequestException
|}.

Definition unnumbered_row : web := {|
  apps_page := λ _, Ok (apps_document [row_A; row_C]);
  associated_page := λ _ _,
    Ok (packages_document ["/store/packagelanding/100";
                           "/store/packagelanding/soon"])
|}.

Definition an_app (id : Z) : app :=
  {| appid := id; app_name := "Game"; app_type := "Game" |}.

(** A row without a links element. *)
Definition row_E : node :=
  Tag "div" ["recent_app_row"] None
    [ Tag "div" ["recent_app_name"] None
        [ Tag "a" [] (Some "https://partner.steamgames.com/apps/landing/30")
            [NavigableString "Game E"] ];
      Tag "div" ["recent_app_type"] None [NavigableString "Tool"] ].

(** Row E followed by a row with two links, and by a row with one. *)
Definition E_before_A : web := {|
  apps_page := λ _, Ok (apps_document [row_E; row_A]);
  associated_page := λ _ _, Err RequestException
|}.

Definition E_before_B : web := {|
  apps_page := λ _, Ok (apps_document [row_E; row_B]);
  associated_page := λ _ _, Err RequestException
|}.

(** A row without a name element between two complete rows, and a page
    with the heading and no row. *)
Definition D_before_B : web := {|
  apps_page := λ _, Ok (apps_document [row_A; row_D; row_B]);
  associated_page := λ _ _, Err RequestException
|}.

Definition no_rows : web := {|
  apps_page := λ _, Ok (apps_document []);
  associated_page := λ _ _, Err RequestException
|}.

(** The site of apps 10 and 20 when its apps page cannot be fetched. *)
Definition site_without_listing : web := {|
  apps_page := λ _, Err RequestException;
  associated_page := associated_page site
|}.

(** A browser logged into the dashboard. *)
Definition logged_in : browser := λ _, [cookie_a; cookie_b; cookie_c].

(** A link target whose path holds the superscript two before the app
    id. *)
Definition superscript_target : string := "/apps/%C2%B2/10".

End Inputs.

(** * Properties *)

(** ** [get_cookies]: which cookies are kept *)

Section CookieFacts.
Variable dashboard : Dashboards.

(** The membership test of line 72 is made with the cookie object and
    never finds it: the selection depends on the cookie alone. *)
Lemma cookie_selected_eligible cookies cookie :
  cookie_selected dashboard cookies cookie = eligible dashboard cookie.
Proof.
  unfold cookie_selected, eligible. simpl. by rewrite andb_true_r.
Qed.

Lemma eligible_spec cookie :
  eligible dashboard cookie = true ↔
  domain cookie = portal_domain dashboard
  ∧ (String.prefix "steam" (name cookie) = true ∨ name cookie = "sessionid").
Proof.
  unfold eligible.
  rewrite andb_true_iff, orb_true_iff, !String.eqb_eq. tauto.
Qed.

(** The value found under [n] after the loop: that of the last eligible
    cookie called [n], or what was there before the loop. *)
Lemma foldl_collect_lookup cj (cookies : gmap string string) n :
  foldl (collect_step dashboard) cookies cj !! n =
  match last (named dashboard n cj) with
  | Some cookie => Some (value cookie)
  | None => cookies !! n
  end.
Proof.
  revert cookies. induction cj as [|c cj IH]; intros cookies; [done|].
  cbn [foldl]. rewrite IH. unfold named. cbn [List.filter].
  unfold collect_step. rewrite cookie_selected_eligible.
  destruct (eligible dashboard c) eqn:He; cbn [andb].
  - destruct (String.eqb (name c) n) eqn:Hn.
    + apply String.eqb_eq in Hn. subst n. rewrite last_cons.
      destruct (last _); [done|]. by rewrite lookup_insert_eq.
    + apply String.eqb_neq in Hn.
      destruct (last _); [done|]. by rewrite lookup_insert_ne.
  - done.
Qed.

Lemma collect_cookies_lookup cj n :
  collect_cookies dashboard cj !! n =
  value <$> last (named dashboard n cj).
Proof.
  unfold collect_cookies. rewrite foldl_collect_lookup.
  by destruct (last _).
Qed.

Lemma named_elem cookie n cj :
  cookie ∈ named dashboard n cj ↔
  cookie ∈ cj ∧ eligible dashboard cookie = true ∧ name cookie = n.
Proof.
  unfold named. rewrite !list_elem_of_In, filter_In, andb_true_iff.
  rewrite String.eqb_eq. tauto.
Qed.

(** A name is a key of the result exactly when an eligible cookie of the
    jar bears it. *)
Lemma collect_cookies_is_Some cj n :
  is_Some (collect_cookies dashboard cj !! n) ↔
  ∃ cookie, cookie ∈ cj ∧ eligible dashboard cookie = true ∧ name cookie = n.
Proof.
  rewrite collect_cookies_lookup, fmap_is_Some, last_is_Some. split.
  - intros Hne. destruct (named dashboard n cj) as [|c l] eqn:E; [done|].
    exists c. apply named_elem. rewrite E. left.
  - intros (c & Hc) E. apply named_elem in Hc. rewrite E in Hc.
    by apply not_elem_of_nil in Hc.
Qed.

Lemma has_required_spec (cookies : gmap string string) :
  has_required dashboard cookies = true ↔
  ∀ check, check ∈ cookies_required_prefixes dashboard →
    ∃ cookie_name, is_Some (cookies !! cookie_name)
                   ∧ String.prefix check cookie_name = true.
Proof.
  unfold has_required, dict_keys. rewrite forallb_forall. split.
  - intros Hall check Hin.
    specialize (Hall check). rewrite <- list_elem_of_In, elem_of_elements in Hall.
    apply Hall, existsb_exists in Hin as (k & Hk & Hp).
    exists k. split; [|done].
    by rewrite <- list_elem_of_In, elem_of_elements, elem_of_dom in Hk.
  - intros Hall check Hin.
    rewrite <- list_elem_of_In, elem_of_elements in Hin.
    destruct (Hall check Hin) as (k & Hk & Hp).
    apply existsb_exists. exists k. split; [|done].
    by rewrite <- list_elem_of_In, elem_of_elements, elem_of_dom.
Qed.

End CookieFacts.

(** C3.  Whatever the jar holds, every entry of the dictionary built by one
    attempt is the name and value of a cookie of the jar whose domain is
    the dashboard's portal domain and whose name starts with [steam] or is
    [sessionid]; and the test that ends the attempt succeeds exactly when
    every required prefix is a prefix of the name of some entry. *)
Theorem filtered_cookies_and_required_prefixes :
  ∀ (dashboard : Dashboards) (cj : list Cookie),
    (∀ n v, collect_cookies dashboard cj !! n = Some v →
       ∃ cookie, cookie ∈ cj
         ∧ domain cookie = portal_domain dashboard
         ∧ (String.prefix "steam" (name cookie) = true
            ∨ name cookie = "sessionid")
         ∧ name cookie = n ∧ value cookie = v)
    ∧ (has_required dashboard (collect_cookies dashboard cj) = true ↔
       ∀ check, check ∈ cookies_required_prefixes dashboard →
         ∃ cookie_name v,
           collect_cookies dashboard cj !! cookie_name = Some v
           ∧ String.prefix check cookie_name = true).
Proof.
  intros dashboard cj. split.
  - intros n v Hl. rewrite collect_cookies_lookup in Hl.
    apply fmap_Some in Hl as (c & Hlast & ->).
    apply last_Some_elem_of, named_elem in Hlast as (Hin & He & Hn).
    apply eligible_spec in He as [Hd Hp]. by exists c.
  - rewrite has_required_spec. split.
    + intros Hall check Hin.
      destruct (Hall check Hin) as (k & [v Hv] & Hp). by exists k, v.
    + intros Hall check Hin.
      destruct (Hall check Hin) as (k & v & Hv & Hp). exists k.
      split; [by exists v|done].
Qed.

(** A jar with a session and a login cookie satisfies a target that
    requires these two: the first attempt succeeds. *)
Example get_cookies_first_attempt :
  get_cookies (λ _, [Inputs.cookie_a; Inputs.cookie_b]) Inputs.two_prefixes start
  = (Ok {[ "sessionid" := "a"; "steamLoginSecure" := "b" ]},
     {| loads := 1;
        trace := [EvLoad;
                  EvPrint "Found the following cookies from partner.steamgames.com:";
                  EvPrintCookies
                    {[ "sessionid" := "a"; "steamLoginSecure" := "b" ]}] |}).
Proof. vm_compute. reflexivity. Qed.

(** A jar without any cookie of the portal domain never does. *)
Example get_cookies_no_cookie_of_domain :
  get_cookies (λ _, [Inputs.cookie_other]) STEAMGAMES start
  = (Err CookiesNotFound, {| loads := 3; trace := failed_attempts 3 |}).
Proof. vm_compute. reflexivity. Qed.

(** C2.  On a jar that holds two eligible cookies with the same name, the
    dictionary built by the attempt holds the value of the later one: the
    entry written for the first is overwritten. *)
Theorem duplicate_cookie_is_overwritten :
  collect_cookies STEAMGAMES [Inputs.cookie_a; Inputs.cookie_a'] !! "sessionid"
  = Some "z"
  ∧ collect_step STEAMGAMES {[ "sessionid" := "a" ]} Inputs.cookie_a'
    = {[ "sessionid" := "z" ]}.
Proof.
  split.
  - by rewrite collect_cookies_lookup.
  - unfold collect_step. rewrite cookie_selected_eligible. cbn.
    by rewrite insert_singleton_eq.
Qed.

Lemma filter_none {A : Type} (f : A → bool) (l : list A) :
  (∀ x, x ∈ l → f x = false) → List.filter f l = [].
Proof.
  induction l as [|x l IH]; intros Hall; [done|].
  cbn. rewrite (Hall x) by left. apply IH. intros y Hy. apply Hall. by right.
Qed.

(** In general the last eligible cookie of a name decides the value. *)
Lemma collect_cookies_last_wins dashboard cj1 cookie cj2 :
  eligible dashboard cookie = true →
  (∀ c, c ∈ cj2 → eligible dashboard c = true → name c ≠ name cookie) →
  collect_cookies dashboard (cj1 ++ cookie :: cj2) !! name cookie
  = Some (value cookie).
Proof.
  intros He Hlater. rewrite collect_cookies_lookup. unfold named.
  rewrite List.filter_app. cbn [List.filter].
  rewrite He, String.eqb_refl. cbn [andb].
  rewrite (filter_none _ cj2); [by rewrite last_snoc|].
  intros c Hc. destruct (eligible dashboard c) eqn:Hel; [|done].
  cbn. apply String.eqb_neq. by apply Hlater.
Qed.

(** ** [get_cookies]: the retry loop *)

Section Retry.
Variables (b : browser) (dashboard : Dashboards).

Lemma failed_attempts_snoc k :
  failed_attempts (S k)
  = failed_attempts k ++ [EvLoad; EvPrint retry_message].
Proof. induction k as [|k IH]; [done|]. cbn in *. by rewrite IH. Qed.

(** With [tries] attempts left and the next [tries] loads all failing the
    test, the loop runs [tries] times and ends with [tries = 0]. *)
Lemma retry_loop_exhausted tries cookies w :
  (∀ k, (k < tries)%nat → attempt_ok b dashboard (loads w + k) = false) →
  (retry_loop b dashboard tries cookies w).1.1 = O
  ∧ (retry_loop b dashboard tries cookies w).2
    = {| loads := loads w + tries;
         trace := trace w ++ failed_attempts tries |}.
Proof.
  revert cookies w. induction tries as [|tries IH]; intros cookies w Hfail.
  - cbn. rewrite Nat.add_0_r, app_nil_r. by destruct w.
  - cbn [retry_loop load_jar].
    pose proof (Hfail O ltac:(lia)) as H0.
    unfold attempt_ok in H0. rewrite Nat.add_0_r in H0. rewrite H0.
    match goal with |- context [retry_loop _ _ _ ?c ?w'] =>
      destruct (IH c w') as [IH1 IH2] end.
    { intros k Hk. cbn. rewrite <- Nat.add_succ_r. apply Hfail. lia. }
    split; [done|]. rewrite IH2. cbn. f_equal; [lia|].
    by rewrite <- !app_assoc.
Qed.

(** When load number [k] is the first to pass the test and [k < tries],
    the loop stops there with the dictionary of that load. *)
Lemma retry_loop_found tries cookies w k :
  (k < tries)%nat →
  (∀ j, (j < k)%nat → attempt_ok b dashboard (loads w + j) = false) →
  attempt_ok b dashboard (loads w + k) = true →
  retry_loop b dashboard tries cookies w
  = ((tries - k)%nat,
     collect_cookies dashboard (b (loads w + k)%nat),
     {| loads := loads w + k + 1;
        trace := trace w ++ failed_attempts k ++ [EvLoad] |}).
Proof.
  revert cookies w k.
  induction tries as [|tries IH]; intros cookies w k Hk Hfail Hok; [lia|].
  cbn [retry_loop load_jar]. destruct k as [|k].
  - unfold attempt_ok in Hok. rewrite Nat.add_0_r in *. rewrite Hok.
    cbn. do 2 f_equal. lia.
  - pose proof (Hfail O ltac:(lia)) as H0.
    unfold attempt_ok in H0. rewrite Nat.add_0_r in H0. rewrite H0.
    rewrite (IH _ _ k); cbn.
    + rewrite <- !Nat.add_succ_r.
      do 2 f_equal; [lia|]. by rewrite <- !app_assoc.
    + lia.
    + intros j Hj. rewrite <- Nat.add_succ_r. apply Hfail. lia.
    + by rewrite <- Nat.add_succ_r.
Qed.

End Retry.

(** C4.  [get_cookies] makes at most three attempts, each on a fresh load
    of the jar.  When the three loads all fail the required-prefix test it
    has loaded the jar exactly three times, printed the retry message
    after each, and raises [CookiesNotFound].  When load number [k] of the
    three is the first to pass the test, it returns the dictionary built
    from that load, after [k + 1] loads, and raises nothing. *)
Theorem get_cookies_attempts :
  ∀ (b : browser) (dashboard : Dashboards) (w : world),
    ((∀ k, (k < 3)%nat → attempt_ok b dashboard (loads w + k) = false) →
     get_cookies b dashboard w
     = (Err CookiesNotFound,
        {| loads := loads w + 3; trace := trace w ++ failed_attempts 3 |}))
    ∧ (∀ k, (k < 3)%nat →
         (∀ j, (j < k)%nat → attempt_ok b dashboard (loads w + j) = false) →
         attempt_ok b dashboard (loads w + k) = true →
         get_cookies b dashboard w
         = (Ok (collect_cookies dashboard (b (loads w + k)%nat)),
            {| loads := loads w + k + 1;
               trace := trace w ++ failed_attempts k
                 ++ [EvLoad;
                     EvPrint "Found the following cookies from partner.steamgames.com:";
                     EvPrintCookies
                       (collect_cookies dashboard (b (loads w + k)%nat))] |})).
Proof.
  intros b dashboard w. split.
  - intros Hfail. unfold get_cookies.
    destruct (retry_loop_exhausted b dashboard 3 ∅ w Hfail) as [H1 H2].
    destruct (retry_loop b dashboard 3 ∅ w) as [[tries cookies] w'].
    cbn in H1, H2. by subst.
  - intros k Hk Hfail Hok. unfold get_cookies.
    rewrite (retry_loop_found b dashboard 3 ∅ w k Hk Hfail Hok).
    destruct (3 - k)%nat eqn:E; [lia|]. unfold print. cbn.
    do 2 f_equal. by rewrite <- !app_assoc.
Qed.

(** The stale browser exhausts the three attempts; the refreshed one
    succeeds at the second load. *)
Lemma get_cookies_attempts_witness :
  get_cookies Inputs.stale STEAMGAMES start
  = (Err CookiesNotFound,
     {| loads := 3; trace := failed_attempts 3 |})
  ∧ (get_cookies Inputs.refreshed STEAMGAMES start).1
    = Ok (collect_cookies STEAMGAMES
            [Inputs.cookie_a; Inputs.cookie_b; Inputs.cookie_c]).
Proof.
  split.
  - apply (proj1 (get_cookies_attempts Inputs.stale STEAMGAMES start)).
    intros k Hk. destruct k as [|[|[|k]]]; [vm_compute; reflexivity ..|lia].
  - rewrite (proj2 (get_cookies_attempts Inputs.refreshed STEAMGAMES start)
               1%nat); [reflexivity|lia| |vm_compute; reflexivity].
    intros j Hj. destruct j as [|j]; [vm_compute; reflexivity|lia].
Defined.

(** ** Results and comprehensions *)

Lemma comprehension_Ok {A B : Type} (f : A → result B) l bs :
  comprehension f l = Ok bs ↔ Forall2 (λ a b, f a = Ok b) l bs.
Proof.
  revert bs. induction l as [|a l IH]; intros bs; cbn.
  - split.
    + intros [= <-]. constructor.
    + intros Hf. by inversion Hf.
  - destruct (f a) as [b|e] eqn:Ha; cbn.
    + destruct (comprehension f l) as [bs'|e] eqn:Hl; cbn.
      * split.
        -- intros [= <-]. constructor; [done|]. by apply IH.
        -- intros Hf. inversion Hf as [|? b' ? bs'' Hb Hrest]; subst.
           apply IH in Hrest. congruence.
      * split; [done|]. intros Hf.
        inversion Hf as [|? b' ? bs'' Hb Hrest]; subst.
        apply IH in Hrest. congruence.
    + split; [done|]. intros Hf. inversion Hf; congruence.
Qed.

(** An element whose computation raises makes the comprehension raise. *)
Lemma comprehension_Err {A B : Type} (f : A → result B) l a e :
  a ∈ l → f a = Err e → ∃ e', comprehension f l = Err e'.
Proof.
  induction l as [|x l IH]; intros Hin Ha; [by apply not_elem_of_nil in Hin|].
  cbn. apply elem_of_cons in Hin as [->|Hin].
  - rewrite Ha. by eexists.
  - destruct (f x); cbn; [|by eexists].
    destruct (IH Hin Ha) as [e' ->]. by eexists.
Qed.

(** The first element that raises decides the exception. *)
Lemma comprehension_first_Err {A B : Type} (f : A → result B) l1 a l2 e :
  (∀ x, x ∈ l1 → ∃ b, f x = Ok b) → f a = Err e →
  comprehension f (l1 ++ a :: l2) = Err e.
Proof.
  induction l1 as [|x l1 IH]; intros Hok Ha; cbn.
  - by rewrite Ha.
  - destruct (Hok x) as [b ->]; [left|]. cbn.
    rewrite IH; [done| |done]. intros y Hy. apply Hok. by right.
Qed.

Lemma comprehension_total {A B : Type} (f : A → result B) l :
  (∀ x, x ∈ l → ∃ b, f x = Ok b) → ∃ bs, comprehension f l = Ok bs.
Proof.
  induction l as [|x l IH]; intros Hok; cbn; [by eexists|].
  destruct (Hok x) as [b ->]; [left|]. cbn.
  destruct IH as [bs ->]; [|by eexists]. intros y Hy. apply Hok. by right.
Qed.

(** ** Link targets *)

Section LinkTargets.
Context `{PyLib}.
#[local] Arguments numeric_parts : simpl never.

Lemma last_numeric_part_empty href path :
  urlparse_path href = Some path → numeric_parts path = [] →
  last_numeric_part href = Err IndexError.
Proof.
  intros Hpath Hnone. unfold last_numeric_part.
  rewrite Hpath. cbn. by rewrite Hnone.
Qed.

Lemma last_numeric_part_Ok_inv href id :
  last_numeric_part href = Ok id →
  ∃ path part, urlparse_path href = Some path
               ∧ last (numeric_parts path) = Some part ∧ int part = Some id.
Proof.
  unfold last_numeric_part. intros Hl.
  destruct (urlparse_path href) as [path|] eqn:Hpath; [|done]. cbn in Hl.
  destruct (comprehension _ (numeric_parts path)) as [ids|e] eqn:Hc; [|done].
  cbn in Hl. destruct (last ids) as [id'|] eqn:Hlast; [|done].
  injection Hl as ->. apply comprehension_Ok in Hc.
  apply last_Some in Hlast as [ids' ->].
  apply Forall2_app_inv_r in Hc as (ps1 & ps2 & Hf1 & Hf2 & Hparts).
  inversion Hf2 as [|part ? ps3 ? Hint Hnil]; subst. inversion Hnil; subst.
  exists path, part. rewrite Hparts, last_snoc. split; [done|]. split; [done|].
  by destruct (int part); simplify_eq/=.
Qed.

Lemma last_numeric_part_Ok href path part id :
  urlparse_path href = Some path →
  Forall (λ p, is_Some (int p)) (numeric_parts path) →
  last (numeric_parts path) = Some part → int part = Some id →
  last_numeric_part href = Ok id.
Proof.
  intros Hpath Hall Hlast Hint. unfold last_numeric_part.
  rewrite Hpath. cbn.
  apply last_Some in Hlast as [ps Hps]. rewrite Hps in *.
  apply Forall_app in Hall as [Hall _].
  assert (∃ ids, comprehension (λ p, expect ValueError (int p)) ps = Ok ids)
    as [ids Hids].
  { apply comprehension_total. intros p Hp.
    rewrite Forall_forall in Hall. destruct (Hall p Hp) as [z ->].
    by eexists. }
  assert (comprehension (λ p, expect ValueError (int p)) (ps ++ [part])
          = Ok (ids ++ [id])) as ->.
  { apply comprehension_Ok. apply Forall2_app.
    - by apply comprehension_Ok.
    - constructor; [by rewrite Hint|constructor]. }
  cbn. by rewrite last_snoc.
Qed.

End LinkTargets.

(** ** Searches in the document *)

Lemma find_app {A : Type} (P : A → bool) (l1 l2 : list A) :
  List.find P (l1 ++ l2)
  = match List.find P l1 with
    | Some x => Some x
    | None => List.find P l2
    end.
Proof.
  induction l1 as [|x l1 IH]; [done|]. cbn. by destruct (P x).
Qed.

(** [find_next] looks below the tag first: what [find] finds there is what
    [find_next] finds, whatever follows the tag. *)
Lemma find_next_below (P : node → bool) (n d : node) (following : list node) :
  find P n = Some d → find_next P n following = Some d.
Proof.
  unfold find, find_next, descendants. intros Hd.
  by rewrite flat_map_app, find_app, Hd.
Qed.

(** Only when nothing below the tag matches does the rest of the document
    matter. *)
Lemma find_next_beyond (P : node → bool) (n : node) (following : list node) :
  find P n = None →
  find_next P n following = List.find P (flat_map preorder following).
Proof.
  unfold find, find_next, descendants. intros Hd.
  by rewrite flat_map_app, find_app, Hd.
Qed.

Lemma find_next_siblings_elem (P : node → bool) sibs after row following :
  (row, following) ∈ find_next_siblings P sibs after →
  P row = true ∧ ∃ before later,
    sibs = before ++ row :: later ∧ following = later ++ after.
Proof.
  induction sibs as [|s sibs IH]; cbn; [by intros ?%not_elem_of_nil|].
  intros Hin. apply elem_of_app in Hin as [Hin|Hin].
  - destruct (P s) eqn:Hs; [|by apply not_elem_of_nil in Hin].
    apply list_elem_of_singleton in Hin as [= -> ->].
    split; [done|]. by exists [], sibs.
  - destruct (IH Hin) as (HP & before & later & -> & ->).
    split; [done|]. by exists (s :: before), later.
Qed.

(** ** [get_apps] *)

Section Listing.
Context `{PyLib}.
#[local] Arguments Nat.ltb : simpl never.

(** The list built so far is only ever extended. *)
Lemma for_app_rows_acc store_pages_only app_rows apps :
  for_app_rows store_pages_only app_rows apps
  = (more ← for_app_rows store_pages_only app_rows []; Ok (apps ++ more)).
Proof.
  revert apps. induction app_rows as [|[row fol] rest IH]; intros apps; cbn.
  - by rewrite app_nil_r.
  - destruct (skipped store_pages_only row fol) as [[|]|e]; cbn; [apply IH| |done].
    destruct (app_of_row row fol) as [a|e]; cbn; [|done].
    rewrite (IH (apps ++ [a])), (IH [a]).
    destruct (for_app_rows store_pages_only rest []); cbn; [|done].
    by rewrite <- app_assoc.
Qed.

(** Under [store_pages_only], when the links element of every row is
    found, the loop computes the dictionaries of the rows with at least
    two links, in row order. *)
Lemma for_app_rows_store_pages app_rows :
  (∀ row fol, (row, fol) ∈ app_rows →
     is_Some (find_next (div_class "recent_app_links") row fol)) →
  for_app_rows true app_rows []
  = comprehension (λ '(row, fol), app_of_row row fol)
      (List.filter
         (λ '(row, fol),
            match find_next (div_class "recent_app_links") row fol with
            | Some links_div =>
                negb (Nat.ltb (length (find_all (is_tag "a") links_div)) 2)
            | None => false
            end)
         app_rows).
Proof.
  induction app_rows as [|[row fol] rest IH]; intros Hlinks; [done|].
  cbn [for_app_rows List.filter]. unfold skipped.
  destruct (Hlinks row fol) as [links_div Hl]; [left|]. rewrite Hl. cbn.
  specialize (IH (λ r f Hin, Hlinks r f (list_elem_of_further _ _ _ Hin))).
  destruct (Nat.ltb _ 2%nat); cbn; [done|].
  destruct (app_of_row row fol) as [a|e]; cbn; [|done].
  by rewrite for_app_rows_acc, IH.
Qed.

(** Without the filter every row is processed. *)
Lemma for_app_rows_all app_rows :
  for_app_rows false app_rows []
  = comprehension (λ '(row, fol), app_of_row row fol) app_rows.
Proof.
  induction app_rows as [|[row fol] rest IH]; [done|]. cbn.
  destruct (app_of_row row fol) as [a|e]; cbn; [|done].
  by rewrite for_app_rows_acc, IH.
Qed.

(** A row whose processing raises makes the loop raise, whatever the
    rows around it. *)
Lemma for_app_rows_Err store_pages_only before row fol later apps :
  (∃ e, skipped store_pages_only row fol = Err e)
  ∨ (skipped store_pages_only row fol = Ok false
     ∧ ∃ e, app_of_row row fol = Err e) →
  ∃ e, for_app_rows store_pages_only (before ++ (row, fol) :: later) apps
       = Err e.
Proof.
  intros Hrow. revert apps.
  induction before as [|[r f] before IH]; intros apps; cbn.
  - destruct Hrow as [[e ->]|[-> [e ->]]]; by eexists.
  - destruct (skipped store_pages_only r f) as [[|]|e]; cbn;
      [apply IH| |by eexists].
    destruct (app_of_row r f); cbn; [apply IH|by eexists].
Qed.

Lemma find_none_all {A : Type} (P : A → bool) (l : list A) :
  (∀ x, x ∈ l → P x = false) → List.find P l = None.
Proof.
  induction l as [|x l IH]; intros Hall; [done|].
  cbn. rewrite (Hall x) by left. apply IH. intros y Hy. apply Hall. by right.
Qed.

(** What is nowhere in the row or after it, [find_next] does not find. *)
Lemma find_next_nowhere P row fol :
  nowhere P row fol → find_next P row fol = None.
Proof.
  intros Hno. unfold find_next. rewrite flat_map_app.
  by apply find_none_all.
Qed.

Lemma element_unavailable_Err store_pages_only row fol :
  element_unavailable store_pages_only row fol →
  (∃ e, skipped store_pages_only row fol = Err e)
  ∨ (skipped store_pages_only row fol = Ok false
     ∧ ∃ e, app_of_row row fol = Err e).
Proof.
  intros [[-> Hl]|[Hs Hmiss]].
  - left. unfold skipped. rewrite (find_next_nowhere _ _ _ Hl). by eexists.
  - right. split; [done|]. unfold app_of_row.
    destruct Hmiss as [Hn|[(name_div & -> & Ha)| Ht]]; cbn.
    + rewrite (find_next_nowhere _ _ _ Hn). by eexists.
    + destruct Ha as [Ha|(name_a & -> & Hh)]; cbn.
      * unfold find. rewrite (find_none_all _ _ Ha). by eexists.
      * rewrite Hh. by eexists.
    + destruct (find_next (div_class "recent_app_name") row fol); cbn;
        [|by eexists].
      destruct (find (is_tag "a") n); cbn; [|by eexists].
      destruct (href_of n0); cbn; [|by eexists].
      destruct (last_numeric_part s); cbn; [|by eexists].
      rewrite (find_next_nowhere _ _ _ Ht). by eexists.
Qed.

End Listing.

Section ListingClaims.
Context `{PyLib}.
#[local] Arguments Nat.ltb : simpl never.

Lemma get_apps_unfold w cookies store_pages_only page header2 :
  apps_page w cookies = Ok page →
  soup_find apps_heading page = Some header2 →
  get_apps w cookies store_pages_only
  = for_app_rows store_pages_only (app_rows_after header2) [].
Proof.
  intros Hpage Hhead. unfold get_apps. rewrite Hpage. cbn. by rewrite Hhead.
Qed.

Lemma app_of_row_IndexError href path row following name_div name_a :
  urlparse_path href = Some path → numeric_parts path = [] →
  find_next (div_class "recent_app_name") row following = Some name_div →
  find (is_tag "a") name_div = Some name_a →
  href_of name_a = Some href →
  app_of_row row following = Err IndexError.
Proof.
  intros Hpath Hnone Hn Ha Hh.
  unfold app_of_row. rewrite Hn. cbn. rewrite Ha. cbn. rewrite Hh. cbn.
  by rewrite (last_numeric_part_empty _ _ Hpath Hnone).
Qed.

Lemma packageid_of_row_IndexError href path row a :
  urlparse_path href = Some path → numeric_parts path = [] →
  find (λ n, is_tag "a" n && has_href n) row = Some a →
  href_of a = Some href →
  packageid_of_row row = Err IndexError.
Proof.
  intros Hpath Hnone Ha Hh. unfold packageid_of_row.
  rewrite Ha. cbn. rewrite Hh. cbn.
  by rewrite (last_numeric_part_empty _ _ Hpath Hnone).
Qed.

(** C7, as amended.  On a listing page whose rows each contain a links element,
    [get_apps] with [store_pages_only] set leaves out exactly the rows
    whose links element holds fewer than two hyperlinks: its outcome is
    that of building the dictionaries of all the other rows, one after
    the other in document order.  In particular, when it returns, the
    list returned matches these rows one for one and in their order. *)
Theorem get_apps_store_pages_only :
  ∀ (w : web) (cookies : gmap string string) (page : soup)
    (header2 : position),
    apps_page w cookies = Ok page →
    soup_find apps_heading page = Some header2 →
    (∀ row fol, (row, fol) ∈ app_rows_after header2 →
       is_Some (own_links row)) →
    get_apps w cookies true
    = comprehension (λ '(row, fol), app_of_row row fol)
        (List.filter (λ '(row, _), has_store_page row)
                     (app_rows_after header2))
    ∧ ∀ apps, get_apps w cookies true = Ok apps →
        Forall2 (λ '(row, fol) a, app_of_row row fol = Ok a)
          (List.filter (λ '(row, _), has_store_page row)
                       (app_rows_after header2))
          apps.
Proof.
  intros w cookies page header2 Hpage Hhead Hown.
  assert (get_apps w cookies true
          = comprehension (λ '(row, fol), app_of_row row fol)
              (List.filter (λ '(row, _), has_store_page row)
                           (app_rows_after header2))) as Heq.
  { rewrite (get_apps_unfold _ _ _ _ _ Hpage Hhead).
    rewrite for_app_rows_store_pages.
    - f_equal. apply filter_ext_in. intros [row fol] Hin.
      apply list_elem_of_In, Hown in Hin as [d Hd].
      unfold has_store_page. rewrite Hd.
      unfold own_links in Hd. by rewrite (find_next_below _ _ _ _ Hd).
    - intros row fol Hin. destruct (Hown _ _ Hin) as [d Hd].
      exists d. by apply find_next_below. }
  split; [done|]. intros apps Hok. rewrite Heq in Hok.
  apply comprehension_Ok in Hok.
  eapply Forall2_impl; [exact Hok|]. by intros [row fol] a.
Qed.

(** C8, as amended.  For a row that contains its name element, with a
    hyperlink that has a target, and its type element, and whose link
    target has a path with numeric parts that [int] reads, the dictionary
    built has for ['appid'] the integer of the last numeric part of the
    decoded path of the target, for ['name'] the stripped text of the
    hyperlink and for ['type'] the stripped text of the type element,
    whatever follows the row in the document: for such a row the
    extraction is a function of the row, and parsing it again gives the
    same id. *)
Theorem app_of_row_record :
  ∀ (row : node) (name_div name_a type_div : node)
    (href path part : string) (id : Z),
    find (div_class "recent_app_name") row = Some name_div →
    find (is_tag "a") name_div = Some name_a →
    href_of name_a = Some href →
    find (div_class "recent_app_type") row = Some type_div →
    urlparse_path href = Some path →
    Forall (λ p, is_Some (int p)) (numeric_parts path) →
    last (numeric_parts path) = Some part →
    int part = Some id →
    ∀ following,
      app_of_row row following
      = Ok {| appid := id;
              app_name := strip (get_text name_a);
              app_type := strip (get_text type_div) |}.
Proof.
  intros row name_div name_a type_div href path part id
    Hname Ha Hhref Htype Hpath Hall Hlast Hint following.
  unfold app_of_row.
  rewrite (find_next_below _ _ _ following Hname). cbn.
  rewrite Ha. cbn. rewrite Hhref. cbn.
  rewrite (last_numeric_part_Ok href path part id Hpath Hall Hlast Hint).
  cbn. by rewrite (find_next_below _ _ _ following Htype).
Qed.

(** What a returned dictionary says about the row, conversely. *)
Lemma app_of_row_Ok_inv row following a :
  app_of_row row following = Ok a →
  ∃ name_div name_a type_div href path part,
    find_next (div_class "recent_app_name") row following = Some name_div
    ∧ find (is_tag "a") name_div = Some name_a
    ∧ href_of name_a = Some href
    ∧ find_next (div_class "recent_app_type") row following = Some type_div
    ∧ urlparse_path href = Some path
    ∧ last (numeric_parts path) = Some part
    ∧ int part = Some (appid a)
    ∧ app_name a = strip (get_text name_a)
    ∧ app_type a = strip (get_text type_div).
Proof.
  unfold app_of_row. intros Hok.
  destruct (find_next (div_class "recent_app_name") row following)
    as [name_div|] eqn:Hn; [|done]. cbn in Hok.
  destruct (find (is_tag "a") name_div) as [name_a|] eqn:Ha; [|done].
  cbn in Hok.
  destruct (href_of name_a) as [href|] eqn:Hh; [|done]. cbn in Hok.
  destruct (last_numeric_part href) as [id|] eqn:Hid; [|done]. cbn in Hok.
  destruct (find_next (div_class "recent_app_type") row following)
    as [type_div|] eqn:Ht; [|done]. cbn in Hok.
  injection Hok as <-.
  apply last_numeric_part_Ok_inv in Hid as (path & part & Hpath & Hlast & Hint).
  by exists name_div, name_a, type_div, href, path, part.
Qed.

(** C9, as amended.  When the listing page has no heading
    [View and search all apps:], [get_apps] raises [AttributeError].  When
    the heading is there and, for some row that is not skipped, an element
    that the scraper reads is neither in the row nor anywhere after it in
    the document (or the name element read has no hyperlink, or the
    hyperlink no target), [get_apps] raises as well, whatever the other
    rows.  In both cases no list is returned.  A page with the heading
    and no row gives the empty list. *)
Theorem get_apps_fails_without_structure :
  ∀ (w : web) (cookies : gmap string string) (store_pages_only : bool)
    (page : soup),
    apps_page w cookies = Ok page →
    (soup_find apps_heading page = None →
     get_apps w cookies store_pages_only = Err AttributeError)
    ∧ (∀ header2 row following,
         soup_find apps_heading page = Some header2 →
         (row, following) ∈ app_rows_after header2 →
         element_unavailable store_pages_only row following →
         ∃ e, get_apps w cookies store_pages_only = Err e)
    ∧ (∀ header2,
         soup_find apps_heading page = Some header2 →
         app_rows_after header2 = [] →
         get_apps w cookies store_pages_only = Ok []).
Proof.
  intros w cookies store_pages_only page Hpage. split; [|split].
  - intros Hnone. unfold get_apps. rewrite Hpage. cbn. by rewrite Hnone.
  - intros header2 row following Hhead Hin Hmiss.
    rewrite (get_apps_unfold _ _ _ _ _ Hpage Hhead).
    apply list_elem_of_split in Hin as (before & later & ->).
    by apply for_app_rows_Err, element_unavailable_Err.
  - intros header2 Hhead Hrows.
    rewrite (get_apps_unfold _ _ _ _ _ Hpage Hhead). by rewrite Hrows.
Qed.

(** C10.  Taking the last numeric part of a link target raises
    [IndexError] when the decoded path of the target has no numeric part,
    and it returns an integer only if the path has one.  The same
    exception leaves the computation of a row's dictionary in [get_apps]
    and the computation of a row's package id in [app_thread]. *)
Theorem last_numeric_part_partial :
  ∀ (href path : string),
    urlparse_path href = Some path →
    (numeric_parts path = [] → last_numeric_part href = Err IndexError)
    ∧ (∀ id, last_numeric_part href = Ok id →
         ∃ part, part ∈ posix_parts (unquote path) ∧ isnumeric part = true)
    ∧ (numeric_parts path = [] →
       ∀ row following name_div name_a,
         find_next (div_class "recent_app_name") row following
         = Some name_div →
         find (is_tag "a") name_div = Some name_a →
         href_of name_a = Some href →
         app_of_row row following = Err IndexError)
    ∧ (numeric_parts path = [] →
       ∀ row a,
         find (λ n, is_tag "a" n && has_href n) row = Some a →
         href_of a = Some href →
         packageid_of_row row = Err IndexError).
Proof.
  intros href path Hpath.
  split; [by apply last_numeric_part_empty|]. split; [|split].
  - intros id Hok.
    apply last_numeric_part_Ok_inv in Hok as (path' & part & Hpath' & Hlast & _).
    assert (path' = path) as -> by congruence.
    exists part. apply last_Some_elem_of in Hlast.
    unfold numeric_parts in Hlast.
    by apply list_elem_of_In, filter_In in Hlast as [?%list_elem_of_In ?].
  - intros Hnone row following name_div name_a.
    by apply (app_of_row_IndexError href path).
  - intros Hnone row a. by apply (packageid_of_row_IndexError href path).
Qed.

(** The exception reaches the caller of [get_apps] ... *)
Lemma get_apps_unnumbered w cookies store_pages_only page header2
    row following name_div name_a href path :
  apps_page w cookies = Ok page →
  soup_find apps_heading page = Some header2 →
  (row, following) ∈ app_rows_after header2 →
  skipped store_pages_only row following = Ok false →
  find_next (div_class "recent_app_name") row following = Some name_div →
  find (is_tag "a") name_div = Some name_a →
  href_of name_a = Some href →
  urlparse_path href = Some path →
  numeric_parts path = [] →
  ∃ e, get_apps w cookies store_pages_only = Err e.
Proof.
  intros Hpage Hhead Hin Hskip Hn Ha Hh Hpath Hnone.
  rewrite (get_apps_unfold _ _ _ _ _ Hpage Hhead).
  apply list_elem_of_split in Hin as (before & later & ->).
  apply for_app_rows_Err. right. split; [done|]. exists IndexError.
  by eapply app_of_row_IndexError.
Qed.

(** ... and the worker's call of [app_thread] ends with it when the row
    is the first one that raises. *)
Lemma packageids_unnumbered w cookies appid page header
    before row later a href path :
  associated_page w appid cookies = Ok page →
  soup_find packages_heading page = Some header →
  released_rows header = before ++ row :: later →
  (∀ r, r ∈ before → ∃ id, packageid_of_row r = Ok id) →
  find (λ n, is_tag "a" n && has_href n) row = Some a →
  href_of a = Some href →
  urlparse_path href = Some path →
  numeric_parts path = [] →
  packageids_of w cookies appid = Err IndexError.
Proof.
  intros Hpage Hhead Hrows Hbefore Ha Hh Hpath Hnone.
  unfold packageids_of. rewrite Hpage. cbn. rewrite Hhead. cbn.
  rewrite Hrows. apply comprehension_first_Err; [done|].
  by eapply packageid_of_row_IndexError.
Qed.

End ListingClaims.

(** *** The listing on concrete pages *)

(** Row A has two links and is kept, row B has one and is left out. *)
Lemma get_apps_store_pages_only_witness :
  get_apps Inputs.site ∅ true
  = Ok [{| appid := 10; app_name := "Game A"; app_type := "Game" |}].
Proof.
  edestruct (get_apps_store_pages_only Inputs.site ∅) as [Heq _].
  - reflexivity.
  - vm_compute. reflexivity.
  - intros row fol Hin. vm_compute in Hin.
    apply elem_of_cons in Hin as [Hin|Hin]; [|apply elem_of_cons in Hin as [Hin|Hin]].
    + injection Hin as -> ->. eexists. vm_compute. reflexivity.
    + injection Hin as -> ->. eexists. vm_compute. reflexivity.
    + by apply not_elem_of_nil in Hin.
  - rewrite Heq. vm_compute. reflexivity.
Defined.

Lemma app_of_row_record_witness :
  app_of_row Inputs.row_A []
  = Ok {| appid := 10; app_name := "Game A"; app_type := "Game" |}
  ∧ app_of_row Inputs.row_A [Inputs.row_D; Inputs.row_B]
    = Ok {| appid := 10; app_name := "Game A"; app_type := "Game" |}.
Proof.
  assert (∀ following,
            app_of_row Inputs.row_A following
            = Ok {| appid := 10; app_name := "Game A"; app_type := "Game" |})
    as Hany.
  { intros following.
    etrans; [eapply (app_of_row_record Inputs.row_A)|].
    - vm_compute. reflexivity.
    - vm_compute. reflexivity.
    - vm_compute. reflexivity.
    - vm_compute. reflexivity.
    - vm_compute. reflexivity.
    - unfold numeric_parts. cbn. repeat constructor. by eexists.
    - vm_compute. reflexivity.
    - vm_compute. reflexivity.
    - vm_compute. reflexivity. }
  split; apply Hany.
Defined.

(** C8, as stated, fails.  Row D has a type element and no name element.
    Followed by row B its dictionary has the id and name of row B,
    followed by row A those of row A, and with nothing after it the
    extraction raises: the id is not read from a hyperlink of the row, and
    it is not a function of the row. *)
Lemma app_of_row_depends_on_next_row :
  find (div_class "recent_app_name") Inputs.row_D = None
  ∧ app_of_row Inputs.row_D [Inputs.row_B]
    = Ok {| appid := 20; app_name := "Game B"; app_type := "Game" |}
  ∧ app_of_row Inputs.row_D [Inputs.row_A]
    = Ok {| appid := 10; app_name := "Game A"; app_type := "Game" |}
  ∧ app_of_row Inputs.row_D [] = Err AttributeError.
Proof. repeat split; vm_compute; reflexivity. Qed.

(** C7, as stated, fails.  Row E has no links element.  On a page where
    it is followed by row A (two links) it is kept, and on a page where
    it is followed by row B (one link) it is left out: whether a row is
    kept is not decided by a links element of the row. *)
Lemma store_pages_filter_reads_next_row :
  own_links Inputs.row_E = None
  ∧ get_apps Inputs.E_before_A ∅ true
    = Ok [{| appid := 30; app_name := "Game E"; app_type := "Tool" |};
          {| appid := 10; app_name := "Game A"; app_type := "Game" |}]
  ∧ get_apps Inputs.E_before_B ∅ true = Ok [].
Proof. repeat split; vm_compute; reflexivity. Qed.

(** C9, as stated, fails.  On a page where row D, which lacks its name
    element, stands between rows A and B, [get_apps] raises nothing: it
    returns three dictionaries, the second made of the id and name of row
    B and the type of row D. *)
Lemma get_apps_returns_on_incomplete_row :
  find (div_class "recent_app_name") Inputs.row_D = None
  ∧ get_apps Inputs.D_before_B ∅ false
    = Ok [{| appid := 10; app_name := "Game A"; app_type := "Game" |};
          {| appid := 20; app_name := "Game B"; app_type := "Game" |};
          {| appid := 20; app_name := "Game B"; app_type := "Demo" |}].
Proof. split; vm_compute; reflexivity. Qed.

Lemma get_apps_fails_without_structure_witness :
  get_apps Inputs.no_heading ∅ true = Err AttributeError
  ∧ (∃ e, get_apps Inputs.broken_row ∅ false = Err e)
  ∧ get_apps Inputs.no_rows ∅ true = Ok [].
Proof.
  split; [|split].
  - apply (proj1 (get_apps_fails_without_structure Inputs.no_heading ∅ true _
                    eq_refl)).
    vm_compute. reflexivity.
  - eapply (proj1 (proj2 (get_apps_fails_without_structure
                            Inputs.broken_row ∅ false _ eq_refl))).
    + vm_compute. reflexivity.
    + cbn. right. left.
    + right. split; [reflexivity|]. left.
      intros n Hn. vm_compute in Hn.
      repeat (apply elem_of_cons in Hn as [->|Hn]; [reflexivity|]).
      by apply not_elem_of_nil in Hn.
  - eapply (proj2 (proj2 (get_apps_fails_without_structure
                            Inputs.no_rows ∅ true _ eq_refl))).
    + vm_compute. reflexivity.
    + vm_compute. reflexivity.
Defined.

Lemma last_numeric_part_partial_witness :
  last_numeric_part "https://partner.steamgames.com/apps/landing/new"
  = Err IndexError
  ∧ app_of_row Inputs.row_C [] = Err IndexError.
Proof.
  pose proof (last_numeric_part_partial
                "https://partner.steamgames.com/apps/landing/new"
                "/apps/landing/new" eq_refl)
    as (Hlast & _ & Hrow & _).
  split.
  - apply Hlast. vm_compute. reflexivity.
  - eapply Hrow; vm_compute; reflexivity.
Defined.

(** ** [get_packages]: the pool *)

Section Pool.
Context `{PyLib}.
Variables (w : web) (cookies : gmap string string).

Lemma app_thread_packages appid ps :
  (app_thread w cookies appid ps).2
  = store_packages appid (written w cookies appid) ps.
Proof.
  unfold app_thread, written.
  by destruct (packageids_of w cookies appid).
Qed.

(** The outcome of a call does not depend on the dictionary. *)
Lemma app_thread_outcome appid ps :
  (appid, (app_thread w cookies appid ps).1) = outcome w cookies appid.
Proof.
  unfold outcome, app_thread.
  by destruct (packageids_of w cookies appid).
Qed.

Lemma store_packages_lookup appid packageids (ps : gmap Z Z) k :
  store_packages appid packageids ps !! k
  = if bool_decide (k ∈ packageids) then Some appid else ps !! k.
Proof.
  revert ps. induction packageids as [|id ids IH]; intros ps; [done|].
  unfold store_packages in *. cbn [foldl]. rewrite IH.
  destruct (decide (k ∈ ids)) as [Hin|Hout].
  - rewrite !bool_decide_eq_true_2; [done|by right|done].
  - rewrite (bool_decide_eq_false_2 _ Hout).
    destruct (decide (k = id)) as [->|Hne].
    + rewrite lookup_insert_eq, bool_decide_eq_true_2; [done|left].
    + rewrite lookup_insert_ne by done.
      rewrite bool_decide_eq_false_2; [done|].
      by intros [?|?]%elem_of_cons.
Qed.

Lemma writers_elem k order a :
  a ∈ writers w cookies k order ↔ a ∈ order ∧ k ∈ written w cookies a.
Proof.
  unfold writers.
  rewrite !list_elem_of_In, filter_In, bool_decide_eq_true.
  by rewrite !list_elem_of_In.
Qed.

(** After the calls have completed in the order [order], a package id
    maps to the app whose call was the last to write it. *)
Lemma commit_lookup order (ps : gmap Z Z) k :
  foldl (commit w cookies) ps order !! k
  = match last (writers w cookies k order) with
    | Some appid => Some appid
    | None => ps !! k
    end.
Proof.
  revert ps. induction order as [|a order IH]; intros ps; [done|].
  cbn [foldl]. rewrite IH. unfold writers, commit. cbn [List.filter].
  rewrite app_thread_packages, store_packages_lookup.
  destruct (bool_decide (k ∈ written w cookies a)).
  - rewrite last_cons. by destruct (last _).
  - done.
Qed.

(** Every state that the pool reaches is the result of some calls having
    completed one after the other. *)
Lemma pool_reachable max_workers app_ids st :
  rtc (pool_step w cookies max_workers) (submitted app_ids) st →
  ∃ completed,
    completed ++ running st ++ queue st ≡ₚ app_ids
    ∧ packages st = foldl (commit w cookies) ∅ completed
    ∧ futures st = map (outcome w cookies) completed.
Proof.
  revert st. apply rtc_ind_r.
  - by exists [].
  - intros st st' Hrun Hstep (completed & Hperm & Hps & Hfs).
    destruct Hstep as [appid q r fs ps Hlt|appid q r1 r2 fs ps]; cbn in *.
    + exists completed. split; [|done].
      rewrite <- Hperm, <- !app_assoc. done.
    + exists (completed ++ [appid]). split; [|split].
      * rewrite <- Hperm, <- !app_assoc. cbn.
        apply Permutation_app_head.
        by rewrite <- Permutation_middle.
      * by rewrite foldl_snoc, Hps.
      * by rewrite map_app, Hfs, app_thread_outcome.
Qed.

Lemma pool_run_order max_workers app_ids fs ps :
  pool_run w cookies max_workers app_ids fs ps →
  ∃ order, order ≡ₚ app_ids
           ∧ ps = foldl (commit w cookies) ∅ order
           ∧ fs = map (outcome w cookies) order.
Proof.
  intros Hrun. apply pool_reachable in Hrun as (order & Hperm & Hps & Hfs).
  cbn in *. rewrite app_nil_r in Hperm. by exists order.
Qed.

(** A pool with at least one worker can always run to completion: the
    calls may complete in submission order. *)
Lemma pool_runs_from max_workers app_ids fs ps :
  (0 < max_workers)%nat →
  rtc (pool_step w cookies max_workers)
    {| queue := app_ids; running := []; futures := fs; packages := ps |}
    {| queue := []; running := [];
       futures := fs ++ map (outcome w cookies) app_ids;
       packages := foldl (commit w cookies) ps app_ids |}.
Proof.
  intros Hpos. revert fs ps.
  induction app_ids as [|a app_ids IH]; intros fs ps; cbn.
  - rewrite app_nil_r. done.
  - eapply rtc_l; [by apply pool_start|].
    eapply rtc_l; [apply (pool_finish _ _ _ a app_ids [] [] fs ps)|].
    cbn. rewrite app_thread_outcome.
    replace (fs ++ outcome w cookies a :: map (outcome w cookies) app_ids)
      with ((fs ++ [outcome w cookies a]) ++ map (outcome w cookies) app_ids)
      by (by rewrite <- app_assoc).
    apply IH.
Qed.

Lemma pool_run_in_order max_workers app_ids :
  (0 < max_workers)%nat →
  pool_run w cookies max_workers app_ids
    (map (outcome w cookies) app_ids) (run_in_order w cookies app_ids).
Proof. intros Hpos. by apply (pool_runs_from max_workers app_ids [] ∅). Qed.

(** What the returned dictionary holds, for any completion order. *)
Lemma pool_run_lookup max_workers app_ids fs ps k a :
  pool_run w cookies max_workers app_ids fs ps →
  ps !! k = Some a →
  a ∈ app_ids ∧ k ∈ written w cookies a.
Proof.
  intros (order & Hperm & -> & _)%pool_run_order Hk.
  rewrite commit_lookup in Hk.
  destruct (last (writers w cookies k order)) as [a'|] eqn:Hlast; [|done].
  injection Hk as ->.
  apply last_Some_elem_of, writers_elem in Hlast as [Hin Hw].
  by rewrite <- Hperm.
Qed.

Lemma pool_run_written max_workers app_ids fs ps k a :
  pool_run w cookies max_workers app_ids fs ps →
  a ∈ app_ids → k ∈ written w cookies a →
  ∃ a', ps !! k = Some a' ∧ a' ∈ app_ids ∧ k ∈ written w cookies a'.
Proof.
  intros (order & Hperm & -> & _)%pool_run_order Hin Hw.
  rewrite commit_lookup.
  destruct (last (writers w cookies k order)) as [a'|] eqn:Hlast.
  - exists a'. split; [done|].
    apply last_Some_elem_of, writers_elem in Hlast as [Hin' Hw'].
    by rewrite <- Hperm.
  - apply last_None in Hlast.
    assert (a ∈ writers w cookies k order) as Ha
      by (apply writers_elem; by rewrite Hperm).
    rewrite Hlast in Ha. by apply not_elem_of_nil in Ha.
Qed.

(** When no package is shared between two apps of the list, the
    completion order does not matter. *)
Lemma pool_run_deterministic mw1 mw2 app_ids fs1 fs2 ps1 ps2 :
  no_shared_package w cookies app_ids →
  pool_run w cookies mw1 app_ids fs1 ps1 →
  pool_run w cookies mw2 app_ids fs2 ps2 →
  ps1 = ps2.
Proof.
  intros Hno H1 H2. apply map_eq. intros k.
  destruct (ps1 !! k) as [a|] eqn:Hk1.
  - destruct (pool_run_lookup _ _ _ _ _ _ H1 Hk1) as [Hin Hw].
    destruct (pool_run_written _ _ _ _ _ _ H2 Hin Hw) as (a' & -> & Hin' & Hw').
    f_equal. by eapply Hno.
  - destruct (ps2 !! k) as [a|] eqn:Hk2; [|done].
    destruct (pool_run_lookup _ _ _ _ _ _ H2 Hk2) as [Hin Hw].
    destruct (pool_run_written _ _ _ _ _ _ H1 Hin Hw) as (a' & Hk & _).
    congruence.
Qed.

End Pool.

(** ** [get_packages] *)

Section PackagesFacts.
Context `{PyLib}.

(** With the list of apps given, [get_packages] returns a dictionary
    whatever the calls of [app_thread] did: an exception raised by a
    call stays in its future. *)
Lemma get_packages_returns_despite_errors max_workers w cookies
    store_pages_only apps r :
  get_packages_with max_workers w cookies store_pages_only (Some apps) r →
  ∃ fs ps, r = Ok ps
           ∧ pool_run w cookies max_workers (map appid apps) fs ps.
Proof.
  intros Hr. destruct Hr as [e Happs|apps' fs ps Happs Hrun]; [done|].
  cbn in Happs. injection Happs as <-. by exists fs, ps.
Qed.

(** The only exceptions that leave [get_packages] are those of
    [get_apps]. *)
Lemma get_packages_Err_inv max_workers w cookies store_pages_only
    get_app_results e :
  get_packages_with max_workers w cookies store_pages_only
                    get_app_results (Err e) →
  get_app_results = None ∧ get_apps w cookies store_pages_only = Err e.
Proof.
  inversion 1 as [e' Happs|]; subst.
  by destruct get_app_results.
Qed.

(** Every entry of the returned dictionary maps a package id to an app
    of the list on whose page it was found, and every package id found
    by a call that did not raise is a key of the dictionary. *)
Lemma get_packages_entries max_workers w cookies store_pages_only
    get_app_results apps ps :
  apps_for w cookies store_pages_only get_app_results = Ok apps →
  get_packages_with max_workers w cookies store_pages_only
                    get_app_results (Ok ps) →
  (∀ k a, ps !! k = Some a →
     a ∈ map appid apps
     ∧ ∃ packageids, packageids_of w cookies a = Ok packageids
                     ∧ k ∈ packageids)
  ∧ (∀ a packageids k,
       a ∈ map appid apps → packageids_of w cookies a = Ok packageids →
       k ∈ packageids → is_Some (ps !! k)).
Proof.
  intros Happs Hr.
  inversion Hr as [|apps' fs ps' Happs' Hrun]; subst.
  rewrite Happs in Happs'. injection Happs' as <-. split.
  - intros k a Hk.
    destruct (pool_run_lookup _ _ _ _ _ _ _ _ Hrun Hk) as [Hin Hw].
    split; [done|]. unfold written in Hw.
    destruct (packageids_of w cookies a) as [ids|]; [by exists ids|].
    by apply not_elem_of_nil in Hw.
  - intros a ids k Hin Hids Hk.
    destruct (pool_run_written _ _ _ _ _ _ k a Hrun Hin) as (a' & -> & _);
      [|done].
    unfold written. by rewrite Hids.
Qed.

(** C5, as amended.  When no package id is found on the pages of two
    different apps of the list, [get_packages] has one possible result:
    it is the same for every order in which the calls of [app_thread]
    complete and for every size of the pool, and a pool of at least one
    worker does produce it. *)
Theorem get_packages_deterministic :
  ∀ (w : web) (cookies : gmap string string) (store_pages_only : bool)
    (get_app_results : option (list app)),
    (∀ apps, apps_for w cookies store_pages_only get_app_results = Ok apps →
       no_shared_package w cookies (map appid apps)) →
    ∃ r, ∀ max_workers,
      ((0 < max_workers)%nat →
       get_packages_with max_workers w cookies store_pages_only
                         get_app_results r)
      ∧ ∀ r', get_packages_with max_workers w cookies store_pages_only
                                get_app_results r' → r' = r.
Proof.
  intros w cookies store_pages_only get_app_results Hno.
  destruct (apps_for w cookies store_pages_only get_app_results)
    as [apps|e] eqn:Happs.
  - exists (Ok (run_in_order w cookies (map appid apps))).
    intros max_workers. split.
    + intros Hpos. eapply get_packages_return; [done|].
      by apply pool_run_in_order.
    + intros r' Hr'. destruct Hr' as [e' Happs'|apps' fs ps Happs' Hrun];
        [congruence|].
      rewrite Happs in Happs'. injection Happs' as <-. f_equal.
      eapply (pool_run_deterministic w cookies max_workers 1%nat);
        [by apply Hno|done|].
      apply pool_run_in_order. lia.
  - exists (Err e). intros max_workers. split.
    + intros _. by apply get_packages_no_apps.
    + intros r' Hr'. destruct Hr' as [e' Happs'|apps' fs ps Happs' Hrun];
        congruence.
Qed.

End PackagesFacts.

(** *** The pool on concrete sites *)

Lemma two_calls_orders (a b : Z) (order : list Z) :
  order ≡ₚ [a; b] → order = [a; b] ∨ order = [b; a].
Proof.
  intros Hperm. symmetry in Hperm.
  by apply Permutation_length_2_inv in Hperm.
Qed.

(** C5, as stated, fails.  Apps 1 and 2 are both sold in package 100.  One
    call of [get_packages] returns [{100: 2}] (the calls complete in
    submission order) and another returns [{100: 1}] (the call for app 2
    completes first). *)
Lemma get_packages_depends_on_completion_order :
  get_packages Inputs.shared_package ∅ true
    (Some [Inputs.an_app 1; Inputs.an_app 2]) (Ok {[ 100 := 2 ]})
  ∧ get_packages Inputs.shared_package ∅ true
      (Some [Inputs.an_app 1; Inputs.an_app 2]) (Ok {[ 100 := 1 ]})
  ∧ ({[ 100 := 2 ]} : gmap Z Z) ≠ {[ 100 := 1 ]}.
Proof.
  split; [|split].
  - eapply get_packages_return; [reflexivity|].
    replace ({[ 100 := 2 ]} : gmap Z Z)
      with (run_in_order Inputs.shared_package ∅ [1; 2])
      by (vm_compute; reflexivity).
    apply pool_run_in_order. lia.
  - eapply get_packages_return; [reflexivity|]. unfold pool_run. cbn.
    eapply rtc_l; [apply pool_start; cbn; lia|].
    eapply rtc_l; [apply pool_start; cbn; lia|].
    eapply rtc_l; [apply (pool_finish _ _ _ 2 [] [1] [] [] ∅)|].
    eapply rtc_l; [apply (pool_finish _ _ _ 1 [] [] [])|].
    cbn. match goal with |- rtc _ ?x ?y => replace y with x; [apply rtc_refl|] end.
    f_equal; vm_compute; reflexivity.
  - intros Heq. apply (f_equal (λ m : gmap Z Z, m !! 100)) in Heq.
    by rewrite !lookup_singleton_eq in Heq.
Qed.

(** Apps 10 and 20 share no package: [get_packages] has the single result
    [{100: 10, 101: 10, 200: 20}], for every pool size. *)
Lemma get_packages_deterministic_witness :
  no_shared_package Inputs.site ∅ [10; 20]
  ∧ ∃ r, r = Ok ({[ 100 := 10; 101 := 10; 200 := 20 ]} : gmap Z Z)
         ∧ ∀ max_workers,
             ((0 < max_workers)%nat →
              get_packages_with max_workers Inputs.site ∅ true
                (Some [Inputs.an_app 10; Inputs.an_app 20]) r)
             ∧ ∀ r', get_packages_with max_workers Inputs.site ∅ true
                       (Some [Inputs.an_app 10; Inputs.an_app 20]) r' →
                     r' = r.
Proof.
  assert (no_shared_package Inputs.site ∅ [10; 20]) as Hno.
  { intros a a' k Ha Ha' Hk Hk'. revert Hk Hk'. unfold written.
    rewrite !elem_of_cons, elem_of_nil in Ha, Ha'.
    destruct Ha as [->|[->|[]]], Ha' as [->|[->|[]]]; [done| | |done];
      vm_compute packageids_of;
      rewrite !elem_of_cons, !elem_of_nil; lia. }
  split; [exact Hno|].
  destruct (get_packages_deterministic Inputs.site ∅ true
              (Some [Inputs.an_app 10; Inputs.an_app 20])) as [r0 Hr0].
  { by intros apps [= <-]. }
  exists r0. split; [|exact Hr0].
  destruct (Hr0 1%nat) as [_ Huniq]. symmetry. apply Huniq.
  eapply get_packages_return; [reflexivity|].
  replace ({[ 100 := 10; 101 := 10; 200 := 20 ]} : gmap Z Z)
    with (run_in_order Inputs.site ∅ [10; 20])
    by (vm_compute; reflexivity).
  apply pool_run_in_order. lia.
Defined.

(** C1.  The request for the page of app 10 raises and the page of app 20
    lists package 200.  The call of [app_thread] for app 10 raises
    [RequestException], and yet [get_packages] returns: its one possible
    result is the dictionary [{200: 20}], and nothing is raised. *)
Theorem get_packages_swallows_worker_error :
  packageids_of Inputs.unreachable_10 ∅ 10 = Err RequestException
  ∧ get_packages Inputs.unreachable_10 ∅ true
      (Some [Inputs.an_app 10; Inputs.an_app 20]) (Ok {[ 200 := 20 ]})
  ∧ ∀ r, get_packages Inputs.unreachable_10 ∅ true
           (Some [Inputs.an_app 10; Inputs.an_app 20]) r →
         r = Ok {[ 200 := 20 ]}.
Proof.
  split; [reflexivity|]. split.
  - eapply get_packages_return; [reflexivity|].
    replace ({[ 200 := 20 ]} : gmap Z Z)
      with (run_in_order Inputs.unreachable_10 ∅ [10; 20])
      by (vm_compute; reflexivity).
    apply pool_run_in_order. lia.
  - intros r Hr.
    apply get_packages_returns_despite_errors in Hr as (fs & ps & -> & Hrun).
    apply pool_run_order in Hrun as (order & Hperm & -> & _). f_equal.
    apply two_calls_orders in Hperm as [->| ->]; vm_compute; reflexivity.
Qed.

(** C6.  The page of app 10 has two released rows: the link of the first
    leads to package 100, the link of the second has no numeric part.  The
    call of [app_thread] for app 10 raises [IndexError] on the second row
    and writes nothing; [get_packages] returns the empty dictionary, in
    which app 10 has no package although its page shows package 100. *)
Theorem failed_worker_contributes_nothing :
  (∃ header row rest,
     associated_page Inputs.unnumbered_row 10 ∅
     = Ok (Inputs.packages_document ["/store/packagelanding/100";
                                     "/store/packagelanding/soon"])
     ∧ soup_find packages_heading
         (Inputs.packages_document ["/store/packagelanding/100";
                                    "/store/packagelanding/soon"])
       = Some header
     ∧ released_rows header = row :: rest
     ∧ packageid_of_row row = Ok 100)
  ∧ packageids_of Inputs.unnumbered_row ∅ 10 = Err IndexError
  ∧ get_packages Inputs.unnumbered_row ∅ true (Some [Inputs.an_app 10]) (Ok ∅)
  ∧ ∀ r, get_packages Inputs.unnumbered_row ∅ true
           (Some [Inputs.an_app 10]) r → r = Ok ∅.
Proof.
  split; [|split; [reflexivity|split]].
  - do 3 eexists. split; [reflexivity|]. split; [vm_compute; reflexivity|].
    split; [vm_compute; reflexivity|]. vm_compute. reflexivity.
  - eapply get_packages_return; [reflexivity|].
    replace (∅ : gmap Z Z)
      with (run_in_order Inputs.unnumbered_row ∅ [10])
      by (vm_compute; reflexivity).
    apply pool_run_in_order. lia.
  - intros r Hr.
    apply get_packages_returns_despite_errors in Hr as (fs & ps & -> & Hrun).
    apply pool_run_order in Hrun as (order & Hperm & -> & _). f_equal.
    apply Permutation_singleton_r in Hperm as ->. vm_compute. reflexivity.
Qed.

(** * Further properties *)

(** ** [get_cookies] *)

(** The two ways a call of [get_cookies] ends. *)
Lemma get_cookies_cases (b : browser) (dashboard : Dashboards) (w : world) :
  (∃ k, (k < 3)%nat
        ∧ (∀ j, (j < k)%nat → attempt_ok b dashboard (loads w + j) = false)
        ∧ attempt_ok b dashboard (loads w + k) = true
        ∧ (get_cookies b dashboard w).1
          = Ok (collect_cookies dashboard (b (loads w + k)%nat))
        ∧ loads (get_cookies b dashboard w).2 = (loads w + k + 1)%nat)
  ∨ ((∀ k, (k < 3)%nat → attempt_ok b dashboard (loads w + k) = false)
     ∧ (get_cookies b dashboard w).1 = Err CookiesNotFound
     ∧ loads (get_cookies b dashboard w).2 = (loads w + 3)%nat).
Proof.
  assert (∀ k, (k < 3)%nat →
            (∀ j, (j < k)%nat → attempt_ok b dashboard (loads w + j) = false) →
            attempt_ok b dashboard (loads w + k) = true →
            (get_cookies b dashboard w).1
            = Ok (collect_cookies dashboard (b (loads w + k)%nat))
            ∧ loads (get_cookies b dashboard w).2 = (loads w + k + 1)%nat)
    as Hfound.
  { intros k Hk Hfail Hok. unfold get_cookies.
    rewrite (retry_loop_found b dashboard 3 ∅ w k Hk Hfail Hok).
    by destruct (3 - k)%nat eqn:E; [lia|]. }
  destruct (attempt_ok b dashboard (loads w + 0)) eqn:H0.
  { left. exists 0%nat. split; [lia|]. split; [intros; lia|]. split; [done|].
    apply Hfound; [lia|intros; lia|done]. }
  destruct (attempt_ok b dashboard (loads w + 1)) eqn:H1.
  { left. exists 1%nat. split; [lia|].
    assert (∀ j, (j < 1)%nat → attempt_ok b dashboard (loads w + j) = false)
      as Hfail by (intros [|j] Hj; [done|lia]).
    split; [done|]. split; [done|]. by apply Hfound; [lia| |]. }
  destruct (attempt_ok b dashboard (loads w + 2)) eqn:H2.
  { left. exists 2%nat. split; [lia|].
    assert (∀ j, (j < 2)%nat → attempt_ok b dashboard (loads w + j) = false)
      as Hfail by (intros [|[|j]] Hj; [done|done|lia]).
    split; [done|]. split; [done|]. by apply Hfound; [lia| |]. }
  right.
  assert (∀ k, (k < 3)%nat → attempt_ok b dashboard (loads w + k) = false)
    as Hfail by (intros [|[|[|k]]] Hk; [done|done|done|lia]).
  split; [done|]. unfold get_cookies.
  destruct (retry_loop_exhausted b dashboard 3 ∅ w Hfail) as [E1 E2].
  destruct (retry_loop b dashboard 3 ∅ w) as [[tries cookies] w'].
  cbn in E1, E2. subst. done.
Qed.

(** X1.  Whatever the browser holds, a call of [get_cookies] ends in one
    of two ways.  Either it returns a dictionary: then the dictionary
    passes the required-prefix test, it was built from the jar of the last
    load made, and between one and three loads were made.  Or it raises:
    then the exception is [CookiesNotFound] and exactly three loads were
    made. *)
Theorem get_cookies_outcome :
  ∀ (b : browser) (dashboard : Dashboards) (w : world),
    match get_cookies b dashboard w with
    | (Ok cookies, w') =>
        has_required dashboard cookies = true
        ∧ cookies = collect_cookies dashboard (b (loads w' - 1)%nat)
        ∧ (loads w + 1 ≤ loads w' ≤ loads w + 3)%nat
    | (Err e, w') =>
        e = CookiesNotFound ∧ loads w' = (loads w + 3)%nat
    end.
Proof.
  intros b dashboard w.
  destruct (get_cookies_cases b dashboard w)
    as [(k & Hk & _ & Hok & Hr & Hl)|(_ & Hr & Hl)];
    destruct (get_cookies b dashboard w) as [r w']; cbn in Hr, Hl; subst r.
  - rewrite Hl. replace (loads w + k + 1 - 1)%nat with (loads w + k)%nat by lia.
    split; [exact Hok|]. split; [done|lia].
  - done.
Qed.

(** X2.  The keys of the dictionary built from a jar are exactly the names
    of the cookies of the jar that have the portal domain and a name that
    starts with [steam] or is [sessionid]: no such cookie is left out and
    no other name gets in. *)
Theorem collect_cookies_keys :
  ∀ (dashboard : Dashboards) (cj : list Cookie) (n : string),
    n ∈ dom (collect_cookies dashboard cj) ↔
    ∃ cookie, cookie ∈ cj
      ∧ domain cookie = portal_domain dashboard
      ∧ (String.prefix "steam" (name cookie) = true
         ∨ name cookie = "sessionid")
      ∧ name cookie = n.
Proof.
  intros dashboard cj n. rewrite elem_of_dom, collect_cookies_is_Some.
  split.
  - intros (c & Hin & He & Hn). exists c. apply eligible_spec in He. tauto.
  - intros (c & Hin & Hd & Hp & Hn). exists c.
    split; [done|]. split; [|done]. apply eligible_spec. tauto.
Qed.

(** X3.  When several cookies of the jar that pass the filter bear the
    same name, the dictionary keeps the value of the one that comes last
    in the jar. *)
Theorem collect_cookies_keeps_last :
  ∀ (dashboard : Dashboards) (cj1 cj2 : list Cookie) (cookie : Cookie),
    domain cookie = portal_domain dashboard →
    String.prefix "steam" (name cookie) = true ∨ name cookie = "sessionid" →
    (∀ c, c ∈ cj2 → name c = name cookie →
       domain c ≠ portal_domain dashboard) →
    collect_cookies dashboard (cj1 ++ cookie :: cj2) !! name cookie
    = Some (value cookie).
Proof.
  intros dashboard cj1 cj2 cookie Hd Hn Hlater.
  apply collect_cookies_last_wins.
  - apply eligible_spec. tauto.
  - intros c Hin He Hname. apply eligible_spec in He as [Hdc _].
    by apply (Hlater c).
Qed.

Lemma collect_cookies_keeps_last_witness :
  collect_cookies STEAMGAMES
    ([Inputs.cookie_a; Inputs.cookie_b] ++ Inputs.cookie_a' :: [Inputs.cookie_c])
  !! "sessionid" = Some "z".
Proof.
  apply (collect_cookies_keeps_last STEAMGAMES
           [Inputs.cookie_a; Inputs.cookie_b] [Inputs.cookie_c]
           Inputs.cookie_a').
  - reflexivity.
  - right. reflexivity.
  - intros c Hc Hname. apply list_elem_of_singleton in Hc as ->. discriminate.
Defined.

(** X4.  The required-prefix test depends on which cookies the jar holds,
    not on their order or number: if every cookie of one jar occurs in
    another and the first jar passes the test, so does the other. *)
Theorem has_required_monotone :
  ∀ (dashboard : Dashboards) (cj cj' : list Cookie),
    (∀ cookie, cookie ∈ cj → cookie ∈ cj') →
    has_required dashboard (collect_cookies dashboard cj) = true →
    has_required dashboard (collect_cookies dashboard cj') = true.
Proof.
  intros dashboard cj cj' Hsub. rewrite !has_required_spec.
  intros Hall check Hin. destruct (Hall check Hin) as (k & Hk & Hp).
  exists k. split; [|done].
  apply collect_cookies_is_Some in Hk as (c & Hc & He & Hn).
  apply collect_cookies_is_Some. exists c. auto.
Qed.

Lemma has_required_monotone_witness :
  has_required STEAMGAMES
    (collect_cookies STEAMGAMES
       [Inputs.cookie_c; Inputs.cookie_other; Inputs.cookie_b;
        Inputs.cookie_a'; Inputs.cookie_a]) = true.
Proof.
  apply (has_required_monotone STEAMGAMES
           [Inputs.cookie_a; Inputs.cookie_b; Inputs.cookie_c]).
  - intros cookie Hin. rewrite !elem_of_cons, elem_of_nil in Hin.
    rewrite !elem_of_cons. tauto.
  - vm_compute. reflexivity.
Defined.

Lemma prefix_cons (a b : ascii) (s t : string) :
  String.prefix (String a s) (String b t)
  = if ascii_dec a b then String.prefix s t else false.
Proof. reflexivity. Qed.

Lemma sessionid_prefix (n : string) :
  String.prefix "sessionid" n = true →
  String.prefix "steam" n = true ∨ n = "sessionid" →
  n = "sessionid".
Proof.
  intros Hs [Ht|Hn]; [|done]. exfalso.
  destruct n as [|a [|c n]]; [discriminate Hs| |].
  - rewrite prefix_cons in Hs. by destruct (ascii_dec "s" a).
  - rewrite !prefix_cons in Hs, Ht.
    destruct (ascii_dec "s" a); [|done].
    destruct (ascii_dec "e" c) as [<-|]; [|done].
    by destruct (ascii_dec "t" "e").
Qed.

(** X5.  A dictionary returned by [get_cookies] for the [STEAMGAMES]
    dashboard has the key [sessionid], a key that starts with
    [steamLoginSecure] and a key that starts with [steamMachineAuth], and
    each of its keys is [sessionid] or starts with [steam]. *)
Theorem get_cookies_STEAMGAMES :
  ∀ (b : browser) (w : world) (cookies : gmap string string),
    (get_cookies b STEAMGAMES w).1 = Ok cookies →
    is_Some (cookies !! "sessionid")
    ∧ (∃ n, is_Some (cookies !! n) ∧ String.prefix "steamLoginSecure" n = true)
    ∧ (∃ n, is_Some (cookies !! n) ∧ String.prefix "steamMachineAuth" n = true)
    ∧ ∀ n, is_Some (cookies !! n) →
           n = "sessionid" ∨ String.prefix "steam" n = true.
Proof.
  intros b w cookies Hret.
  destruct (get_cookies_cases b STEAMGAMES w)
    as [(k & _ & _ & Hok & Hr & _)|(_ & Hr & _)]; [|congruence].
  rewrite Hr in Hret. injection Hret as <-.
  unfold attempt_ok in Hok. rewrite has_required_spec in Hok.
  assert (∀ n, is_Some (collect_cookies STEAMGAMES (b (loads w + k)%nat) !! n) →
               String.prefix "steam" n = true ∨ n = "sessionid") as Hkeys.
  { intros n (c & _ & He & <-)%collect_cookies_is_Some.
    by apply eligible_spec in He as [_ ?]. }
  split; [|split; [|split]].
  - destruct (Hok "sessionid") as (n & Hn & Hp); [cbn; set_unfold; tauto|].
    by rewrite <- (sessionid_prefix n Hp (Hkeys n Hn)).
  - apply Hok. cbn. set_unfold. tauto.
  - apply Hok. cbn. set_unfold. tauto.
  - intros n Hn. destruct (Hkeys n Hn); tauto.
Qed.

Lemma get_cookies_STEAMGAMES_witness :
  is_Some (collect_cookies STEAMGAMES
             [Inputs.cookie_a; Inputs.cookie_b; Inputs.cookie_c]
           !! "sessionid").
Proof.
  apply (get_cookies_STEAMGAMES Inputs.refreshed start).
  vm_compute. reflexivity.
Defined.

(** ** [get_apps] *)

Section ListingMore.
Context `{PyLib}.
#[local] Arguments Nat.ltb : simpl never.

(** X6.  With [store_pages_only] unset, [get_apps] builds the dictionary
    of every row that follows the heading, in document order, and raises
    what the first failing row raises; the list it returns has one entry
    per row. *)
Theorem get_apps_all_rows :
  ∀ (w : web) (cookies : gmap string string) (page : soup)
    (header2 : position),
    apps_page w cookies = Ok page →
    soup_find apps_heading page = Some header2 →
    get_apps w cookies false
    = comprehension (λ '(row, fol), app_of_row row fol)
                    (app_rows_after header2)
    ∧ ∀ apps, get_apps w cookies false = Ok apps →
        length apps = length (app_rows_after header2).
Proof.
  intros w cookies page header2 Hpage Hhead.
  rewrite (get_apps_unfold _ _ _ _ _ Hpage Hhead), for_app_rows_all.
  split; [done|]. intros apps Hok. apply comprehension_Ok in Hok.
  symmetry. by eapply Forall2_length.
Qed.

(** The filter only takes entries away. *)
Lemma for_app_rows_sublist app_rows kept all :
  for_app_rows true app_rows [] = Ok kept →
  for_app_rows false app_rows [] = Ok all →
  kept `sublist_of` all.
Proof.
  revert kept all.
  induction app_rows as [|[row fol] rest IH]; intros kept all.
  - cbn. by intros [= <-] [= <-].
  - cbn [for_app_rows].
    destruct (skipped true row fol) as [[|]|e]; cbn; [| |done].
    + intros Hk. destruct (app_of_row row fol) as [a|]; cbn; [|done].
      rewrite for_app_rows_acc.
      destruct (for_app_rows false rest []) as [all'|]; cbn; [|done].
      intros [= <-]. apply sublist_cons. by apply IH.
    + destruct (app_of_row row fol) as [a|]; cbn; [|done].
      rewrite !(for_app_rows_acc _ rest [a]).
      destruct (for_app_rows true rest []) as [kept'|]; cbn; [|done].
      destruct (for_app_rows false rest []) as [all'|]; cbn; [|done].
      intros [= <-] [= <-]. apply sublist_skip. by apply IH.
Qed.

(** X7.  When the calls with and without [store_pages_only] both return,
    the filtered list is the unfiltered one with some entries left out:
    the filter changes no entry and keeps the order. *)
Theorem get_apps_filter_sublist :
  ∀ (w : web) (cookies : gmap string string) (kept all : list app),
    get_apps w cookies true = Ok kept →
    get_apps w cookies false = Ok all →
    kept `sublist_of` all.
Proof.
  intros w cookies kept all. unfold get_apps.
  destruct (apps_page w cookies) as [page|]; cbn; [|done].
  destruct (soup_find apps_heading page) as [header2|]; cbn; [|done].
  apply for_app_rows_sublist.
Qed.

Lemma app_of_row_Ok row following name_div name_a type_div href id :
  find_next (div_class "recent_app_name") row following = Some name_div →
  find (is_tag "a") name_div = Some name_a →
  href_of name_a = Some href →
  last_numeric_part href = Ok id →
  find_next (div_class "recent_app_type") row following = Some type_div →
  app_of_row row following
  = Ok {| appid := id;
          app_name := strip (get_text name_a);
          app_type := strip (get_text type_div) |}.
Proof.
  intros Hn Ha Hh Hid Ht. unfold app_of_row.
  rewrite Hn. cbn. rewrite Ha. cbn. rewrite Hh. cbn. rewrite Hid. cbn.
  by rewrite Ht.
Qed.

(** X8.  The lookups of [get_apps] do not stop at the end of the row.  For
    a row that has a type element but no name element of its own, the
    name element of the next node of the document is used: the dictionary
    built for the row has the id and the name of the next row's hyperlink
    and the type of the row itself. *)
Theorem app_of_row_takes_next_name :
  ∀ (row next : node) (rest : list node) (name_div name_a type_div : node)
    (href : string) (id : Z),
    find (div_class "recent_app_name") row = None →
    find (div_class "recent_app_type") row = Some type_div →
    div_class "recent_app_name" next = false →
    find (div_class "recent_app_name") next = Some name_div →
    find (is_tag "a") name_div = Some name_a →
    href_of name_a = Some href →
    last_numeric_part href = Ok id →
    app_of_row row (next :: rest)
    = Ok {| appid := id;
            app_name := strip (get_text name_a);
            app_type := strip (get_text type_div) |}.
Proof.
  intros row next rest name_div name_a type_div href id
    Hnone Htype Hnext Hname Ha Hh Hid.
  apply (app_of_row_Ok _ _ name_div name_a type_div href id);
    [|done|done|done|by apply find_next_below].
  rewrite find_next_beyond by done. cbn [flat_map].
  rewrite find_app. destruct next as [t cls h cs|s]; [|done].
  cbn [preorder List.find]. rewrite Hnext.
  unfold find, descendants in Hname. cbn in Hname. by rewrite Hname.
Qed.

Lemma comprehension_same_exception {A B : Type} (f : A → result B) l a e :
  (∀ x e', f x = Err e' → e' = e) →
  a ∈ l → f a = Err e →
  comprehension f l = Err e.
Proof.
  intros Hsame. induction l as [|x l IH]; intros Hin Ha;
    [by apply not_elem_of_nil in Hin|].
  cbn. destruct (f x) as [b|e'] eqn:Hx; cbn.
  - apply elem_of_cons in Hin as [->|Hin]; [congruence|].
    by rewrite IH.
  - by rewrite (Hsame x e' Hx).
Qed.

(** X9.  [int] is applied to every numeric part of the path before the
    last one is taken: a numeric part that [int] does not read makes the
    extraction raise [ValueError], wherever it stands in the path and even
    when the last numeric part is readable. *)
Theorem last_numeric_part_ValueError :
  ∀ (href path part : string),
    urlparse_path href = Some path →
    part ∈ numeric_parts path →
    int part = None →
    last_numeric_part href = Err ValueError.
Proof.
  intros href path part Hpath Hin Hint. unfold last_numeric_part.
  rewrite Hpath. cbn.
  rewrite (comprehension_same_exception _ _ part ValueError); [done| |done|].
  - intros x e'. by destruct (int x); intros [= <-].
  - by rewrite Hint.
Qed.

(** X10.  On a page with the heading, whose rows each hold a links
    element, a name element with a hyperlink to a path with readable
    numeric parts, and a type element, [get_apps] raises nothing: it
    returns a list, with one entry per row that has at least two links
    under [store_pages_only] and one entry per row otherwise. *)
Theorem get_apps_returns :
  ∀ (w : web) (cookies : gmap string string) (store_pages_only : bool)
    (page : soup) (header2 : position),
    apps_page w cookies = Ok page →
    soup_find apps_heading page = Some header2 →
    (∀ row fol, (row, fol) ∈ app_rows_after header2 → complete_row row) →
    ∃ apps, get_apps w cookies store_pages_only = Ok apps
      ∧ length apps
        = if store_pages_only
          then length (List.filter (λ '(row, _), has_store_page row)
                                   (app_rows_after header2))
          else length (app_rows_after header2).
Proof.
  intros w cookies store_pages_only page header2 Hpage Hhead Hrows.
  rewrite (get_apps_unfold _ _ _ _ _ Hpage Hhead).
  assert (∀ row fol, (row, fol) ∈ app_rows_after header2 →
            ∃ a, app_of_row row fol = Ok a) as Hok.
  { intros row fol Hin.
    destruct (Hrows row fol Hin)
      as (_ & [type_div Ht]
          & name_div & name_a & href & path & Hn & Ha & Hh & Hp & Hne & Hall).
    destruct (last (numeric_parts path)) as [part|] eqn:Hlast;
      [|by apply last_None in Hlast].
    assert (is_Some (int part)) as [id Hid].
    { rewrite Forall_forall in Hall. apply Hall.
      by apply last_Some_elem_of. }
    eexists. eapply app_of_row_Ok;
      [by apply find_next_below|done|done| |by apply find_next_below].
    by apply (last_numeric_part_Ok href path part id). }
  destruct store_pages_only.
  - rewrite for_app_rows_store_pages.
    + match goal with |- context [List.filter ?f _] => set (keep := f) end.
      assert (List.filter keep (app_rows_after header2)
              = List.filter (λ '(row, _), has_store_page row)
                            (app_rows_after header2)) as Hfilter.
      { apply filter_ext_in. intros [row fol] Hin. unfold keep.
        apply list_elem_of_In, Hrows in Hin as ([d Hd] & _).
        unfold has_store_page. rewrite Hd.
        unfold own_links in Hd. by rewrite (find_next_below _ _ _ _ Hd). }
      rewrite Hfilter.
      destruct (comprehension_total (λ '(row, fol), app_of_row row fol)
                  (List.filter (λ '(row, _), has_store_page row)
                               (app_rows_after header2))) as [apps Happs].
      { intros [row fol] Hin. apply Hok.
        by apply list_elem_of_In, filter_In in Hin as [?%list_elem_of_In _]. }
      exists apps. split; [done|]. apply comprehension_Ok in Happs.
      symmetry. by eapply Forall2_length.
    + intros row fol Hin. destruct (Hrows row fol Hin) as ([d Hd] & _).
      exists d. by apply find_next_below.
  - rewrite for_app_rows_all.
    destruct (comprehension_total (λ '(row, fol), app_of_row row fol)
                (app_rows_after header2)) as [apps Happs].
    { intros [row fol] Hin. by apply Hok. }
    exists apps. split; [done|]. apply comprehension_Ok in Happs.
    symmetry. by eapply Forall2_length.
Qed.

End ListingMore.

Lemma get_apps_all_rows_witness :
  ∃ apps, get_apps Inputs.site ∅ false = Ok apps ∧ length apps = 2%nat.
Proof.
  edestruct (get_apps_all_rows Inputs.site ∅) as [Heq Hlen].
  - reflexivity.
  - vm_compute. reflexivity.
  - eexists. split; [vm_compute; reflexivity|].
    erewrite Hlen; [|vm_compute; reflexivity]. vm_compute. reflexivity.
Defined.

Lemma get_apps_filter_sublist_witness :
  [{| appid := 10; app_name := "Game A"; app_type := "Game" |}]
  `sublist_of`
  [{| appid := 10; app_name := "Game A"; app_type := "Game" |};
   {| appid := 20; app_name := "Game B"; app_type := "Demo" |}].
Proof.
  apply (get_apps_filter_sublist Inputs.site ∅); vm_compute; reflexivity.
Defined.

(** A row without a name element, followed by row B: the dictionary has
    the id and name of row B. *)
Lemma app_of_row_takes_next_name_witness :
  app_of_row Inputs.row_D [Inputs.row_B]
  = Ok {| appid := 20; app_name := "Game B"; app_type := "Game" |}.
Proof.
  etrans; [eapply (app_of_row_takes_next_name Inputs.row_D Inputs.row_B [])|].
  - vm_compute. reflexivity.
  - vm_compute. reflexivity.
  - vm_compute. reflexivity.
  - vm_compute. reflexivity.
  - vm_compute. reflexivity.
  - vm_compute. reflexivity.
  - vm_compute. reflexivity.
  - vm_compute. reflexivity.
Defined.

(** The path [/apps/²/10]: the superscript two passes [isnumeric] and is
    not read by [int]; the readable last part 10 is never reached. *)
Lemma last_numeric_part_ValueError_witness :
  @last_numeric_part superscript_lib Inputs.superscript_target
  = Err ValueError.
Proof.
  apply (@last_numeric_part_ValueError superscript_lib
           Inputs.superscript_target Inputs.superscript_target
           Superscript.two).
  - vm_compute. reflexivity.
  - vm_compute. left.
  - vm_compute. reflexivity.
Defined.

Lemma get_apps_returns_witness :
  ∃ apps, get_apps Inputs.site ∅ true = Ok apps ∧ length apps = 1%nat.
Proof.
  edestruct (get_apps_returns Inputs.site ∅ true) as (apps & Hret & Hlen).
  - reflexivity.
  - vm_compute. reflexivity.
  - intros row fol Hin. vm_compute in Hin.
    apply elem_of_cons in Hin as [Hin|Hin];
      [|apply elem_of_cons in Hin as [Hin|Hin];
        [|by apply not_elem_of_nil in Hin]];
      injection Hin as -> ->;
      (split; [eexists; vm_compute; reflexivity|];
       split; [eexists; vm_compute; reflexivity|];
       do 4 eexists;
       split; [vm_compute; reflexivity|];
       split; [vm_compute; reflexivity|];
       split; [vm_compute; reflexivity|];
       split; [vm_compute; reflexivity|];
       split; [vm_compute; discriminate|];
       unfold numeric_parts; cbn; repeat constructor; by eexists).
  - exists apps. split; [exact Hret|]. rewrite Hlen. vm_compute. reflexivity.
Defined.

(** ** [get_packages] and [app_thread] *)

Section PackagesMore.
Context `{PyLib}.

(** X12.  In the dictionary that [get_packages] returns, every value is
    the id of an app of the list and every key is a package id that the
    worker of that app found on the app's page; and every package id found
    by a worker that did not raise is a key of the dictionary. *)
Theorem get_packages_keys_and_values :
  ∀ (w : web) (cookies : gmap string string) (store_pages_only : bool)
    (apps : list app) (ps : gmap Z Z),
    get_packages w cookies store_pages_only (Some apps) (Ok ps) →
    (∀ k a, ps !! k = Some a →
       (∃ app, app ∈ apps ∧ appid app = a)
       ∧ ∃ packageids, packageids_of w cookies a = Ok packageids
                       ∧ k ∈ packageids)
    ∧ (∀ app packageids k,
         app ∈ apps → packageids_of w cookies (appid app) = Ok packageids →
         k ∈ packageids → is_Some (ps !! k)).
Proof.
  intros w cookies store_pages_only apps ps Hr.
  apply get_packages_returns_despite_errors in Hr as (fs & ps' & [= <-] & Hrun).
  split.
  - intros k a Hk.
    destruct (pool_run_lookup _ _ _ _ _ _ _ _ Hrun Hk) as [Hin Hw]. split.
    + apply list_elem_of_fmap in Hin as (app & -> & Hin). by exists app.
    + unfold written in Hw.
      destruct (packageids_of w cookies a) as [ids|]; [by exists ids|].
      by apply not_elem_of_nil in Hw.
  - intros app ids k Hin Hids Hk.
    destruct (pool_run_written _ _ _ _ _ _ k (appid app) Hrun)
      as (a' & -> & _); [by apply list_elem_of_fmap_2| |done].
    unfold written. by rewrite Hids.
Qed.

(** X13.  Whatever the scheduling of the workers, the dictionary that
    [get_packages] returns is the one obtained by running the calls of
    [app_thread] one after the other in some order of the app ids; a
    package id found for several apps maps to the one that comes last in
    that order. *)
Theorem get_packages_serial :
  ∀ (w : web) (cookies : gmap string string) (store_pages_only : bool)
    (apps : list app) (ps : gmap Z Z),
    get_packages w cookies store_pages_only (Some apps) (Ok ps) →
    ∃ order, order ≡ₚ map appid apps
      ∧ ps = foldl (commit w cookies) ∅ order
      ∧ ∀ k, ps !! k = last (writers w cookies k order).
Proof.
  intros w cookies store_pages_only apps ps Hr.
  apply get_packages_returns_despite_errors in Hr as (fs & ps' & [= <-] & Hrun).
  apply pool_run_order in Hrun as (order & Hperm & -> & _).
  exists order. split; [done|]. split; [done|].
  intros k. rewrite commit_lookup. by destruct (last _).
Qed.

Lemma packageids_of_same_pages w w' cookies appid :
  (∀ a c, associated_page w a c = associated_page w' a c) →
  packageids_of w cookies appid = packageids_of w' cookies appid.
Proof. intros Hsame. unfold packageids_of. by rewrite Hsame. Qed.

(** X14.  With the list of apps given, [get_packages] does not look at the
    apps page nor at [store_pages_only]: on two sites that serve the same
    pages of associated packages, the possible results are the same. *)
Theorem get_packages_ignores_listing :
  ∀ (max_workers : nat) (w w' : web) (cookies : gmap string string)
    (b b' : bool) (apps : list app) (r : result (gmap Z Z)),
    (∀ a c, associated_page w a c = associated_page w' a c) →
    get_packages_with max_workers w cookies b (Some apps) r →
    get_packages_with max_workers w' cookies b' (Some apps) r.
Proof.
  intros max_workers w w' cookies b b' apps r Hsame Hr.
  apply get_packages_returns_despite_errors in Hr as (fs & ps & -> & Hrun).
  eapply get_packages_return; [done|]. unfold pool_run in *.
  eapply rtc_subrel; [|exact Hrun].
  intros st st' Hstep.
  destruct Hstep as [appid q r fs' ps' Hlt|appid q r1 r2 fs' ps'].
  - by apply pool_start.
  - unfold app_thread. rewrite (packageids_of_same_pages w w' _ _ Hsame).
    apply (pool_finish w' cookies max_workers appid q r1 r2 fs' ps').
Qed.

(** X15.  The effect of a call of [app_thread] on the shared dictionary:
    when the page was read, each package id found on it maps to the app
    afterwards and every other key keeps its value; when the call raised,
    the dictionary is unchanged.  Running the call a second time changes
    nothing more. *)
Theorem app_thread_effect :
  ∀ (w : web) (cookies : gmap string string) (appid : Z)
    (ps : gmap Z Z),
    (∀ k, (app_thread w cookies appid ps).2 !! k
          = match packageids_of w cookies appid with
            | Ok packageids =>
                if bool_decide (k ∈ packageids) then Some appid else ps !! k
            | Err _ => ps !! k
            end)
    ∧ (app_thread w cookies appid (app_thread w cookies appid ps).2).2
      = (app_thread w cookies appid ps).2.
Proof.
  intros w cookies appid ps.
  assert (∀ ps' k, (app_thread w cookies appid ps').2 !! k
            = match packageids_of w cookies appid with
              | Ok packageids =>
                  if bool_decide (k ∈ packageids) then Some appid
                  else ps' !! k
              | Err _ => ps' !! k
              end) as Hlook.
  { intros ps' k. unfold app_thread.
    destruct (packageids_of w cookies appid) as [ids|]; [|done].
    apply store_packages_lookup. }
  split; [apply Hlook|]. apply map_eq. intros k. rewrite !Hlook.
  destruct (packageids_of w cookies appid) as [ids|]; [|done].
  by destruct (bool_decide (k ∈ ids)).
Qed.

(** X16.  The set of keys of the result does not depend on the
    scheduling, even when apps share packages: two results of
    [get_packages] for the same arguments, whatever the sizes of the
    pools, have the same package ids as keys. *)
Theorem get_packages_same_keys :
  ∀ (mw1 mw2 : nat) (w : web) (cookies : gmap string string)
    (store_pages_only : bool) (get_app_results : option (list app))
    (ps1 ps2 : gmap Z Z),
    get_packages_with mw1 w cookies store_pages_only get_app_results (Ok ps1) →
    get_packages_with mw2 w cookies store_pages_only get_app_results (Ok ps2) →
    dom ps1 = dom ps2.
Proof.
  intros mw1 mw2 w cookies store_pages_only get_app_results ps1 ps2 H1 H2.
  inversion H1 as [|apps1 fs1 ? Happs1 Hrun1]; subst.
  inversion H2 as [|apps2 fs2 ? Happs2 Hrun2]; subst.
  rewrite Happs1 in Happs2. injection Happs2 as <-.
  apply set_eq. intros k. rewrite !elem_of_dom. split.
  - intros [a Hk].
    destruct (pool_run_lookup _ _ _ _ _ _ _ _ Hrun1 Hk) as [Hin Hw].
    destruct (pool_run_written _ _ _ _ _ _ k a Hrun2 Hin Hw) as (a' & -> & _).
    done.
  - intros [a Hk].
    destruct (pool_run_lookup _ _ _ _ _ _ _ _ Hrun2 Hk) as [Hin Hw].
    destruct (pool_run_written _ _ _ _ _ _ k a Hrun1 Hin Hw) as (a' & -> & _).
    done.
Qed.

(** X17.  A package id found on the page of one app of the list only is
    mapped to that app in every result of [get_packages]: the scheduling
    can change the value of a key only for a package that several apps of
    the list share. *)
Theorem get_packages_unshared_key :
  ∀ (w : web) (cookies : gmap string string) (store_pages_only : bool)
    (apps : list app) (ps : gmap Z Z) (app : app) (k : Z),
    get_packages w cookies store_pages_only (Some apps) (Ok ps) →
    app ∈ apps →
    k ∈ written w cookies (appid app) →
    (∀ app', app' ∈ apps → k ∈ written w cookies (appid app') →
       appid app' = appid app) →
    ps !! k = Some (appid app).
Proof.
  intros w cookies store_pages_only apps ps app k Hr Hin Hk Honly.
  apply get_packages_returns_despite_errors in Hr as (fs & ps' & [= <-] & Hrun).
  destruct (pool_run_written _ _ _ _ _ _ k (appid app) Hrun)
    as (a' & Hlook & Hin' & Hw'); [by apply list_elem_of_fmap_2|done|].
  rewrite Hlook. f_equal.
  apply list_elem_of_fmap in Hin' as (app' & -> & Hin').
  by apply Honly.
Qed.

End PackagesMore.

(** *** Runs on concrete sites *)

Lemma site_run :
  get_packages Inputs.site ∅ true
    (Some [Inputs.an_app 10; Inputs.an_app 20])
    (Ok {[ 100 := 10; 101 := 10; 200 := 20 ]}).
Proof.
  eapply get_packages_return; [reflexivity|].
  replace ({[ 100 := 10; 101 := 10; 200 := 20 ]} : gmap Z Z)
    with (run_in_order Inputs.site ∅ [10; 20])
    by (vm_compute; reflexivity).
  apply pool_run_in_order. lia.
Qed.

Lemma shared_run_in_order :
  get_packages Inputs.shared_package ∅ true
    (Some [Inputs.an_app 1; Inputs.an_app 2]) (Ok {[ 100 := 2 ]}).
Proof.
  eapply get_packages_return; [reflexivity|].
  replace ({[ 100 := 2 ]} : gmap Z Z)
    with (run_in_order Inputs.shared_package ∅ [1; 2])
    by (vm_compute; reflexivity).
  apply pool_run_in_order. lia.
Qed.

Lemma shared_run_reversed :
  get_packages Inputs.shared_package ∅ true
    (Some [Inputs.an_app 1; Inputs.an_app 2]) (Ok {[ 100 := 1 ]}).
Proof.
  eapply get_packages_return; [reflexivity|]. unfold pool_run. cbn.
  eapply rtc_l; [apply pool_start; cbn; lia|].
  eapply rtc_l; [apply pool_start; cbn; lia|].
  eapply rtc_l; [apply (pool_finish _ _ _ 2 [] [1] [] [] ∅)|].
  eapply rtc_l; [apply (pool_finish _ _ _ 1 [] [] [])|].
  cbn. match goal with |- rtc _ ?x ?y => replace y with x; [apply rtc_refl|] end.
  f_equal; vm_compute; reflexivity.
Qed.

Lemma get_packages_keys_and_values_witness :
  is_Some (({[ 100 := 10; 101 := 10; 200 := 20 ]} : gmap Z Z) !! 101).
Proof.
  destruct (get_packages_keys_and_values _ _ _ _ _ site_run) as [_ Hkeys].
  apply (Hkeys (Inputs.an_app 10) [100; 101] 101).
  - left.
  - vm_compute. reflexivity.
  - right. left.
Defined.

Lemma get_packages_serial_witness :
  ∃ order, order ≡ₚ [10; 20]
    ∧ ({[ 100 := 10; 101 := 10; 200 := 20 ]} : gmap Z Z)
      = foldl (commit Inputs.site ∅) ∅ order.
Proof.
  destruct (get_packages_serial _ _ _ _ _ site_run) as (order & Hperm & Hps & _).
  by exists order.
Defined.

Lemma get_packages_ignores_listing_witness :
  get_packages_with 20 Inputs.site_without_listing ∅ false
    (Some [Inputs.an_app 10; Inputs.an_app 20])
    (Ok {[ 100 := 10; 101 := 10; 200 := 20 ]}).
Proof.
  apply (get_packages_ignores_listing 20 Inputs.site
           Inputs.site_without_listing ∅ true false).
  - reflexivity.
  - apply site_run.
Defined.

Lemma get_packages_same_keys_witness :
  dom ({[ 100 := 2 ]} : gmap Z Z) = dom ({[ 100 := 1 ]} : gmap Z Z).
Proof.
  apply (get_packages_same_keys 20 20 Inputs.shared_package ∅ true
           (Some [Inputs.an_app 1; Inputs.an_app 2])).
  - apply shared_run_in_order.
  - apply shared_run_reversed.
Defined.

Lemma get_packages_unshared_key_witness :
  ({[ 100 := 10; 101 := 10; 200 := 20 ]} : gmap Z Z) !! 200 = Some 20.
Proof.
  apply (get_packages_unshared_key Inputs.site ∅ true
           [Inputs.an_app 10; Inputs.an_app 20] _ (Inputs.an_app 20) 200).
  - apply site_run.
  - right. left.
  - vm_compute. left.
  - intros app' Hin Hk. rewrite !elem_of_cons, elem_of_nil in Hin.
    destruct Hin as [->|[->|[]]]; [|done].
    exfalso. revert Hk. unfold written. vm_compute packageids_of.
    rewrite !elem_of_cons, elem_of_nil. lia.
Defined.

(** ** The script *)

Section ScriptFacts.
Context `{PyLib}.

(** X19.  The script ends with an exception in two cases only: the cookies
    were not found after three loads of the jar ([CookiesNotFound]), or
    [get_apps] raised.  An exception raised by a worker of [get_packages]
    never ends the script. *)
Theorem main_exceptions :
  ∀ (b : browser) (w : web) (e : exn),
    main b w (Err e) →
    (e = CookiesNotFound
     ∧ ∀ k, (k < 3)%nat → attempt_ok b STEAMGAMES k = false)
    ∨ (∃ cookies, (get_cookies b STEAMGAMES start).1 = Ok cookies
                  ∧ get_apps w cookies true = Err e).
Proof.
  intros b w e Hmain.
  inversion Hmain as [e' wd Hc|cookies wd e' Hc Ha|cookies wd apps e' Hc Ha Hp|];
    subst; unfold Dashboards_cookies in Hc; apply (f_equal fst) in Hc;
    change (fst (get_cookies b STEAMGAMES start))
      with (get_cookies b STEAMGAMES start).1 in Hc.
  - left.
    destruct (get_cookies_cases b STEAMGAMES start)
      as [(k & _ & _ & _ & Hr & _)|(Hfail & Hr & _)];
      rewrite Hr in Hc; [discriminate Hc|].
    injection Hc as <-. split; [reflexivity|]. intros k Hk. by apply Hfail.
  - right. exists cookies. split; [exact Hc|exact Ha].
  - clear Hc. apply get_packages_Err_inv in Hp as [Hnone _].
    discriminate Hnone.
Qed.

(** X20.  When the script runs to its end, the cookies it used pass the
    required-prefix test of [STEAMGAMES], the apps it printed are those
    that [get_apps] lists for these cookies under [store_pages_only], and
    every value of the packages it printed is the id of one of the apps
    printed, on whose page the key was found. *)
Theorem main_report :
  ∀ (b : browser) (w : web) (r : report),
    main b w (Ok r) →
    has_required STEAMGAMES (report_cookies r) = true
    ∧ get_apps w (report_cookies r) true = Ok (report_apps r)
    ∧ ∀ k a, report_packages r !! k = Some a →
        (∃ app, app ∈ report_apps r ∧ appid app = a)
        ∧ ∃ packageids,
            packageids_of w (report_cookies r) a = Ok packageids
            ∧ k ∈ packageids.
Proof.
  intros b w r Hmain.
  inversion Hmain as [| | |cookies wd apps ps Hc Ha Hp]; subst.
  unfold Dashboards_cookies in Hc. apply (f_equal fst) in Hc.
  change (fst (get_cookies b STEAMGAMES start))
    with (get_cookies b STEAMGAMES start).1 in Hc.
  change (has_required STEAMGAMES cookies = true
          ∧ get_apps w cookies true = Ok apps
          ∧ ∀ k a, ps !! k = Some a →
              (∃ app, app ∈ apps ∧ appid app = a)
              ∧ ∃ packageids, packageids_of w cookies a = Ok packageids
                              ∧ k ∈ packageids).
  split; [|split; [exact Ha|]].
  - destruct (get_cookies_cases b STEAMGAMES start)
      as [(k & _ & _ & Hok & Hr & _)|(_ & Hr & _)];
      rewrite Hr in Hc; [|discriminate Hc].
    injection Hc as <-. exact Hok.
  - clear Hc. intros k a Hk.
    apply get_packages_returns_despite_errors in Hp as (fs & ps' & Heq & Hrun).
    injection Heq as <-.
    destruct (pool_run_lookup _ _ _ _ _ _ _ _ Hrun Hk) as [Hin Hw]. split.
    + apply list_elem_of_fmap in Hin as (app & -> & Hin). by exists app.
    + unfold written in Hw.
      destruct (packageids_of w cookies a) as [ids|]; [by exists ids|].
      by apply not_elem_of_nil in Hw.
Qed.

End ScriptFacts.

Lemma main_exceptions_witness :
  main Inputs.stale Inputs.site (Err CookiesNotFound)
  ∧ ∀ k, (k < 3)%nat → attempt_ok Inputs.stale STEAMGAMES k = false.
Proof.
  assert (main Inputs.stale Inputs.site (Err CookiesNotFound)) as Hmain.
  { eapply main_cookies_raise. vm_compute. reflexivity. }
  split; [exact Hmain|].
  destruct (main_exceptions _ _ _ Hmain) as [[_ Hfail]|(cookies & Hc & _)].
  - exact Hfail.
  - vm_compute in Hc. discriminate Hc.
Defined.

Lemma main_report_witness :
  ∃ r, main Inputs.logged_in Inputs.site (Ok r)
       ∧ has_required STEAMGAMES (report_cookies r) = true
       ∧ report_apps r
         = [{| appid := 10; app_name := "Game A"; app_type := "Game" |}].
Proof.
  assert (main Inputs.logged_in Inputs.site
            (Ok {| report_cookies :=
                     collect_cookies STEAMGAMES
                       [Inputs.cookie_a; Inputs.cookie_b; Inputs.cookie_c];
                   report_apps :=
                     [{| appid := 10; app_name := "Game A";
                         app_type := "Game" |}];
                   report_packages := run_in_order Inputs.site
                     (collect_cookies STEAMGAMES
                        [Inputs.cookie_a; Inputs.cookie_b; Inputs.cookie_c])
                     [10] |})) as Hmain.
  { eapply main_done.
    - vm_compute. reflexivity.
    - vm_compute. reflexivity.
    - eapply get_packages_return; [reflexivity|].
      apply pool_run_in_order. lia. }
  eexists. split; [exact Hmain|].
  destruct (main_report _ _ _ Hmain) as (Hreq & _ & _).
  split; [exact Hreq|reflexivity].
Defined.
